(** * RingBuffer: a shallow embedding of [ring_buffer.c] and its properties

    The C functions of [ring_buffer.c] are transcribed one by one into a
    small state-and-error monad over the [ring_buffer] handle.  Integers
    are [Z] with the 8- and 32-bit wrap-around written out; the bound
    array is a [list Z] of bytes, read and written by index. *)

From Stdlib Require Import ZArith Lia Bool.
From stdpp Require Import base list.

Local Open Scope Z_scope.

(** ** Machine integers *)

Definition uint8_t (z : Z) : Z := z mod 2 ^ 8.
Definition uint32_t (z : Z) : Z := z mod 2 ^ 32.

Definition is_byte (b : Z) : Prop := 0 <= b < 256.

(** ** The handle ([ring_buffer.h]) *)

Definition RING_BUFFER_SUCCESS : Z := 1.
Definition RING_BUFFER_ERROR : Z := 0.

(** [array_addr] is the externally defined array the handle is bound to:
    the list holds its bytes, and its length is the array's real size
    (which [max_length] only records as it was told to [Ring_Buffer_Init]). *)
Record ring_buffer : Type := mk_ring_buffer {
  head : Z;
  tail : Z;
  lenght : Z;
  array_addr : list Z;
  max_length : Z
}.

(** ** Outcomes and the monad *)

(** A call either returns, or does something C leaves undefined (an
    access outside an object, a shift count outside the operand's width),
    or is still looping when the fuel given to a [while] loop runs out. *)
Inductive outcome (A : Type) : Type :=
| Ret (a : A)
| Undefined
| OutOfFuel.
Arguments Ret {A} a.
Arguments Undefined {A}.
Arguments OutOfFuel {A}.

Definition M (A : Type) : Type := ring_buffer -> outcome (A * ring_buffer).

Definition ret {A} (a : A) : M A := fun rb => Ret (a, rb).

Definition bind {A B} (m : M A) (k : A -> M B) : M B :=
  fun rb =>
    match m rb with
    | Ret (a, rb') => k a rb'
    | Undefined => Undefined
    | OutOfFuel => OutOfFuel
    end.

Definition undefined {A} : M A := fun _ => Undefined.
Definition out_of_fuel {A} : M A := fun _ => OutOfFuel.

Declare Scope rb_scope.
Delimit Scope rb_scope with rb.
Notation "x <- c1 ;; c2" := (bind c1 (fun x => c2))
  (at level 100, c1 at next level, right associativity) : rb_scope.
Notation "c1 ;; c2" := (bind c1 (fun _ => c2))
  (at level 100, right associativity) : rb_scope.
Local Open Scope rb_scope.

Definition run {A} (m : M A) (rb : ring_buffer) : outcome (A * ring_buffer) := m rb.

(** Field reads and writes through the handle pointer. *)
Definition get_head : M Z := fun rb => Ret (head rb, rb).
Definition get_tail : M Z := fun rb => Ret (tail rb, rb).
Definition get_lenght : M Z := fun rb => Ret (lenght rb, rb).
Definition get_max_length : M Z := fun rb => Ret (max_length rb, rb).

Definition set_head (v : Z) : M unit := fun rb =>
  Ret (tt, mk_ring_buffer v (tail rb) (lenght rb) (array_addr rb) (max_length rb)).
Definition set_tail (v : Z) : M unit := fun rb =>
  Ret (tt, mk_ring_buffer (head rb) v (lenght rb) (array_addr rb) (max_length rb)).
Definition set_lenght (v : Z) : M unit := fun rb =>
  Ret (tt, mk_ring_buffer (head rb) (tail rb) v (array_addr rb) (max_length rb)).
Definition set_array_addr (a : list Z) : M unit := fun rb =>
  Ret (tt, mk_ring_buffer (head rb) (tail rb) (lenght rb) a (max_length rb)).
Definition set_max_length (v : Z) : M unit := fun rb =>
  Ret (tt, mk_ring_buffer (head rb) (tail rb) (lenght rb) (array_addr rb) v).

(** [*(array_addr + off)] as an rvalue. *)
Definition load (off : Z) : M Z := fun rb =>
  if 0 <=? off then
    match array_addr rb !! Z.to_nat off with
    | Some b => Ret (b, rb)
    | None => Undefined
    end
  else Undefined.

(** [*(array_addr + off) = v]. *)
Definition store (off v : Z) : M unit := fun rb =>
  if (0 <=? off) && (off <? Z.of_nat (length (array_addr rb))) then
    Ret (tt, mk_ring_buffer (head rb) (tail rb) (lenght rb)
               (<[Z.to_nat off := v]> (array_addr rb)) (max_length rb))
  else Undefined.

(** [memcpy(array_addr + off, src, n)]: [src] holds the bytes readable at
    the source address. *)
Definition memcpy_to_array (off : Z) (src : list Z) (n : Z) : M unit := fun rb =>
  if (0 <=? off) && (0 <=? n)
     && (off + n <=? Z.of_nat (length (array_addr rb)))
     && (n <=? Z.of_nat (length src)) then
    Ret (tt, mk_ring_buffer (head rb) (tail rb) (lenght rb)
               (list_inserts (Z.to_nat off) (take (Z.to_nat n) src) (array_addr rb))
               (max_length rb))
  else Undefined.

(** [memcpy(dst, array_addr + off, n)]: the [n] bytes that reach [dst]. *)
Definition memcpy_from_array (off n : Z) : M (list Z) := fun rb =>
  if (0 <=? off) && (0 <=? n)
     && (off + n <=? Z.of_nat (length (array_addr rb))) then
    Ret (take (Z.to_nat n) (drop (Z.to_nat off) (array_addr rb)), rb)
  else Undefined.

(** [x >> s] on a [uint32_t]. *)
Definition shift_right32 (x s : Z) : M Z :=
  if (0 <=? s) && (s <? 32) then ret (Z.shiftr x s) else undefined.

(** [b << s] on a promoted byte, as it reaches a [uint32_t]: the low 32
    bits of the shifted value. *)
Definition shift_left32 (b s : Z) : M Z :=
  if (0 <=? s) && (s <? 32) then ret (uint32_t (Z.shiftl b s)) else undefined.

(** ** [ring_buffer.c] *)

(** Every integer argument is first converted to its parameter's type,
    as a C call does. *)

Definition Ring_Buffer_Init (buffer_addr : list Z) (buffer_size : Z) : M Z :=
  let buffer_size := uint32_t buffer_size in
  set_head 0 ;;
  set_tail 0 ;;
  set_lenght 0 ;;
  set_array_addr buffer_addr ;;
  set_max_length buffer_size ;;
  ml <- get_max_length ;;
  if ml <? 2 then ret RING_BUFFER_ERROR else ret RING_BUFFER_SUCCESS.

Definition Ring_Buffer_Delete (lenght_arg : Z) : M Z :=
  let lenght_arg := uint8_t lenght_arg in
  len <- get_lenght ;;
  if len <? lenght_arg then ret RING_BUFFER_ERROR
  else
    h <- get_head ;;
    ml <- get_max_length ;;
    (if uint32_t (h + lenght_arg) >=? ml
     then set_head (uint32_t (lenght_arg - uint32_t (ml - h)))
     else set_head (uint32_t (h + lenght_arg))) ;;
    len <- get_lenght ;;
    set_lenght (uint32_t (len - lenght_arg)) ;;
    ret RING_BUFFER_SUCCESS.

Definition Ring_Buffer_Write_Byte (rb_data : Z) : M Z :=
  let rb_data := uint8_t rb_data in
  len <- get_lenght ;;
  ml <- get_max_length ;;
  if len =? uint32_t (ml - 1) then ret RING_BUFFER_ERROR
  else
    t <- get_tail ;;
    store t rb_data ;;
    len <- get_lenght ;;
    set_lenght (uint32_t (len + 1)) ;;
    t <- get_tail ;;
    set_tail (uint32_t (t + 1)) ;;
    t <- get_tail ;;
    ml <- get_max_length ;;
    (if t >? uint32_t (ml - 1) then set_tail 0 else ret tt) ;;
    ret RING_BUFFER_SUCCESS.

(** [rb_data] is returned uninitialised when nothing is stored: [None]. *)
Definition Ring_Buffer_Read_Byte : M (option Z) :=
  len <- get_lenght ;;
  if negb (len =? 0) then
    h <- get_head ;;
    rb_data <- load h ;;
    h <- get_head ;;
    set_head (uint32_t (h + 1)) ;;
    len <- get_lenght ;;
    set_lenght (uint32_t (len - 1)) ;;
    h <- get_head ;;
    ml <- get_max_length ;;
    (if h >? uint32_t (ml - 1) then set_head 0 else ret tt) ;;
    ret (Some rb_data)
  else ret None.

Definition Ring_Buffer_Write_String (input_addr : list Z) (write_lenght : Z) : M Z :=
  let write_lenght := uint32_t write_lenght in
  len <- get_lenght ;;
  ml <- get_max_length ;;
  if uint32_t (len + write_lenght) >? ml then ret RING_BUFFER_ERROR
  else
    t <- get_tail ;;
    let '(write_size_a, write_size_b) :=
      if uint32_t (ml - t) <? write_lenght
      then (uint32_t (ml - t), uint32_t (write_lenght - uint32_t (ml - t)))
      else (write_lenght, 0) in
    (if negb (write_size_b =? 0) then
       memcpy_to_array t input_addr write_size_a ;;
       memcpy_to_array 0 (drop (Z.to_nat write_size_a) input_addr) write_size_b ;;
       len <- get_lenght ;;
       set_lenght (uint32_t (len + write_lenght)) ;;
       set_tail write_size_b
     else
       memcpy_to_array t input_addr write_size_a ;;
       len <- get_lenght ;;
       set_lenght (uint32_t (len + write_lenght)) ;;
       t <- get_tail ;;
       set_tail (uint32_t (t + write_size_a)) ;;
       t <- get_tail ;;
       ml <- get_max_length ;;
       if t =? ml then set_tail 0 else ret tt) ;;
    ret RING_BUFFER_SUCCESS.

(** The second component is what was copied to [output_addr] (nothing on
    failure); the caller's array is taken to be large enough. *)
Definition Ring_Buffer_Read_String (read_lenght : Z) : M (Z * list Z) :=
  let read_lenght := uint32_t read_lenght in
  len <- get_lenght ;;
  if read_lenght >? len then ret (RING_BUFFER_ERROR, [])
  else
    h <- get_head ;;
    ml <- get_max_length ;;
    let '(Read_size_a, Read_size_b) :=
      if read_lenght >? uint32_t (ml - h)
      then (uint32_t (ml - h), uint32_t (read_lenght - uint32_t (ml - h)))
      else (read_lenght, 0) in
    if negb (Read_size_b =? 0) then
      out_a <- memcpy_from_array h Read_size_a ;;
      out_b <- memcpy_from_array 0 Read_size_b ;;
      len <- get_lenght ;;
      set_lenght (uint32_t (len - read_lenght)) ;;
      set_head Read_size_b ;;
      ret (RING_BUFFER_SUCCESS, out_a ++ out_b)
    else
      out_a <- memcpy_from_array h Read_size_a ;;
      len <- get_lenght ;;
      set_lenght (uint32_t (len - read_lenght)) ;;
      h <- get_head ;;
      set_head (uint32_t (h + Read_size_a)) ;;
      h <- get_head ;;
      ml <- get_max_length ;;
      (if h =? ml then set_head 0 else ret tt) ;;
      ret (RING_BUFFER_SUCCESS, out_a).

(** The host byte order selects the branch of the [#if] and the layout
    of [keyword] in memory. *)
Inductive byte_order : Type := LittleEndian | BigEndian.

(** The four bytes at [(uint8_t * )&keyword], lowest address first. *)
Definition keyword_object (host : byte_order) (keyword : Z) : list Z :=
  let b (i : Z) := uint8_t (Z.shiftr keyword (8 * i)) in
  match host with
  | LittleEndian => [b 0; b 1; b 2; b 3]
  | BigEndian => [b 3; b 2; b 1; b 0]
  end.

Definition Ring_Buffer_Insert_Keyword (host : byte_order) (keyword keyword_lenght : Z) : M Z :=
  let keyword := uint32_t keyword in
  let keyword_lenght := uint8_t keyword_lenght in
  let keyword_addr (i : nat) := default 0 (keyword_object host keyword !! i) in
  match host with
  | LittleEndian =>
      let keyword_byte :=
        [keyword_addr 3%nat; keyword_addr 2%nat; keyword_addr 1%nat; keyword_addr 0%nat] in
      Ring_Buffer_Write_String keyword_byte keyword_lenght
  | BigEndian =>
      let keyword_byte :=
        [keyword_addr 0%nat; keyword_addr 1%nat; keyword_addr 2%nat; keyword_addr 3%nat] in
      (* keyword_byte + (keyword_lenght - 1) *)
      if 0 <=? keyword_lenght - 1
      then Ring_Buffer_Write_String
             (drop (Z.to_nat (keyword_lenght - 1)) keyword_byte) keyword_lenght
      else undefined
  end.

(** The [for] loop of [Ring_Buffer_Get_Word]. *)
Fixpoint Get_Word_loop (fuel : nat) (read_lenght i head rb_data : Z) : M Z :=
  match fuel with
  | O => out_of_fuel
  | S fuel =>
      if i <=? read_lenght then
        b <- load head ;;
        w <- shift_left32 b (uint32_t (8 * uint32_t (read_lenght - i))) ;;
        let rb_data := Z.lor rb_data w in
        let head := uint32_t (head + 1) in
        ml <- get_max_length ;;
        let head := if head >? uint32_t (ml - 1) then 0 else head in
        Get_Word_loop fuel read_lenght (uint32_t (i + 1)) head rb_data
      else ret rb_data
  end.

Definition Ring_Buffer_Get_Word (head read_lenght : Z) : M Z :=
  let head := uint32_t head in
  let read_lenght := uint32_t read_lenght in
  Get_Word_loop (S (Z.to_nat read_lenght)) read_lenght 1 head 0.

(** Which [return] of [Ring_Buffer_Find_Keyword] was taken. *)
Inductive find_result : Type :=
| Found (distance : Z)
| NotFound.

Definition find_return (r : find_result) : Z :=
  match r with
  | Found distance => distance
  | NotFound => RING_BUFFER_ERROR
  end.

(** The [while] loop of [Ring_Buffer_Find_Keyword]. *)
Fixpoint Find_Keyword_loop (fuel : nat)
    (keyword keyword_lenght max_find_lenght trigger_word distance find_head : Z)
    : M find_result :=
  match fuel with
  | O => out_of_fuel
  | S fuel =>
      if distance <=? max_find_lenght then
        b <- load find_head ;;
        hit <- (if b =? trigger_word then
                  w <- Ring_Buffer_Get_Word find_head keyword_lenght ;;
                  ret (w =? keyword)
                else ret false) ;;
        if hit : bool then ret (Found distance)
        else
          let find_head := uint32_t (find_head + 1) in
          let distance := uint32_t (distance + 1) in
          ml <- get_max_length ;;
          let find_head := if find_head >? uint32_t (ml - 1) then 0 else find_head in
          Find_Keyword_loop fuel keyword keyword_lenght max_find_lenght trigger_word
            distance find_head
      else ret NotFound
  end.

Definition Find_Keyword_scan (fuel : nat) (keyword keyword_lenght : Z) : M find_result :=
  let keyword := uint32_t keyword in
  let keyword_lenght := uint8_t keyword_lenght in
  len <- get_lenght ;;
  let max_find_lenght := uint32_t (uint32_t (len - keyword_lenght) + 1) in
  t <- shift_right32 keyword ((keyword_lenght - 1) * 8) ;;
  let trigger_word := uint8_t t in
  h <- get_head ;;
  Find_Keyword_loop fuel keyword keyword_lenght max_find_lenght trigger_word 1 h.

Definition Ring_Buffer_Find_Keyword (fuel : nat) (keyword keyword_lenght : Z) : M Z :=
  r <- Find_Keyword_scan fuel keyword keyword_lenght ;;
  ret (find_return r).

Definition Ring_Buffer_Get_Length : M Z := get_lenght.

Definition Ring_Buffer_Get_FreeSize : M Z :=
  ml <- get_max_length ;;
  len <- get_lenght ;;
  ret (uint32_t (ml - len)).

(** ** The test program's scenario ([test_ringbuffer.c]) *)

Definition blank : ring_buffer := mk_ring_buffer 0 0 0 [] 0.

Definition Read_BUFFER_SIZE : Z := 256.
Definition SEPARATE_SIGN : Z := 0xCCFB22AA.
Definition SEPARATE_SIGN_SIZE : Z := 4.

(** ["ABCDEFGHIJK\r\n"] and ["abcdefg\r\n"] with their terminating NUL. *)
Definition str_ABCDEFGHIJK : list Z := [65;66;67;68;69;70;71;72;73;74;75;13;10;0].
Definition str_abcdefg : list Z := [97;98;99;100;101;102;103;13;10;0].

(** ** Specification vocabulary *)

(** [read_only m]: whenever [m] returns, the handle and the array are
    what they were. *)
Definition read_only {A} (m : M A) : Prop :=
  forall rb a rb', run m rb = Ret (a, rb') -> rb' = rb.

(** [wp m Q rb]: run from [rb], [m] returns, with a value and a handle
    that satisfy [Q]. *)
Definition wp {A} (m : M A) (Q : A -> ring_buffer -> Prop) (rb : ring_buffer) : Prop :=
  match run m rb with
  | Ret (a, rb') => Q a rb'
  | Undefined => False
  | OutOfFuel => False
  end.

(** The handle describes the array it is bound to, its indices are in
    range, and [tail] is [lenght] places after [head] around the ring.
    [lenght] may reach [max_length]: [Ring_Buffer_Write_String] fills
    the array to the last slot. *)
Definition wf (rb : ring_buffer) : Prop :=
  max_length rb = Z.of_nat (length (array_addr rb)) /\
  0 < max_length rb < 2 ^ 32 /\
  0 <= head rb < max_length rb /\
  0 <= tail rb < max_length rb /\
  0 <= lenght rb <= max_length rb /\
  (tail rb = head rb + lenght rb \/
   tail rb = head rb + lenght rb - max_length rb).

(** [l] cells of the ring [arr] from index [h] on, wrapping once. *)
Definition window {A} (arr : list A) (h l : nat) : list A :=
  take l (drop h (arr ++ arr)).

(** The stored bytes, oldest first. *)
Definition contents (rb : ring_buffer) : list Z :=
  window (array_addr rb) (Z.to_nat (head rb)) (Z.to_nat (lenght rb)).

(** The [n] low bytes of [value], most significant first. *)
Definition be_bytes (value n : Z) : list Z :=
  map (fun i => uint8_t (Z.shiftr value (8 * (n - 1 - Z.of_nat i))))
      (seq 0 (Z.to_nat n)).

(** The number a byte string spells, most significant byte first. *)
Definition be_value (bytes : list Z) : Z :=
  fold_left (fun acc b => acc * 256 + b) bytes 0.

Arguments uint32_t : simpl never.
Arguments uint8_t : simpl never.

(** The index [k] places after [head] around the ring. *)
Definition position (rb : ring_buffer) (k : Z) : Z :=
  (head rb + k) mod max_length rb.

(** One pass of the test in the body of the [while] loop of
    [Ring_Buffer_Find_Keyword]: does the keyword start at [find_head]? *)
Definition keyword_at (keyword keyword_lenght trigger_word find_head : Z) : M bool :=
  b <- load find_head ;;
  if b =? trigger_word then
    w <- Ring_Buffer_Get_Word find_head keyword_lenght ;;
    ret (w =? keyword)
  else ret false.

(** The outcome of that test [k] places after [head]. *)
Definition hit_at (rb : ring_buffer) (kw L tr k : Z) : outcome (bool * ring_buffer) :=
  run (keyword_at kw L tr (position rb k)) rb.

(** [head] is an index of the array and [max_length] fits its type. *)
Definition valid_head (rb : ring_buffer) : Prop :=
  0 <= head rb < max_length rb /\ max_length rb < 2 ^ 32.

(** ** Concrete handles *)

(** The handle a sequence of calls leaves behind. *)
Definition after {A} (m : M A) (rb : ring_buffer) : ring_buffer :=
  match run m rb with
  | Ret (_, rb') => rb'
  | Undefined => rb
  | OutOfFuel => rb
  end.

(** The test program after its first paragraph and separator, on a
    little-endian host. *)
Definition one_paragraph : ring_buffer :=
  after (Ring_Buffer_Init (replicate 256 0) Read_BUFFER_SIZE ;;
         Ring_Buffer_Write_String str_ABCDEFGHIJK 13 ;;
         Ring_Buffer_Insert_Keyword LittleEndian SEPARATE_SIGN SEPARATE_SIGN_SIZE)
        blank.

(** ... and after its second paragraph and separator. *)
Definition two_paragraphs : ring_buffer :=
  after (Ring_Buffer_Write_String str_abcdefg 9 ;;
         Ring_Buffer_Insert_Keyword LittleEndian SEPARATE_SIGN SEPARATE_SIGN_SIZE)
        one_paragraph.

(** An 8-byte ring whose stored bytes [1; 2; 0xCC; 0xFB; 0x22; 0xAA]
    start at index 5 and wrap past the end of the array. *)
Definition wrapped : ring_buffer :=
  after (Ring_Buffer_Init (replicate 8 0) 8 ;;
         Ring_Buffer_Write_String [9; 9; 9; 9; 9] 5 ;;
         Ring_Buffer_Read_String 5 ;;
         Ring_Buffer_Write_String [1; 2] 2 ;;
         Ring_Buffer_Insert_Keyword LittleEndian SEPARATE_SIGN SEPARATE_SIGN_SIZE)
        blank.

(** A 4-byte ring bound and still empty. *)
Definition fresh4 : ring_buffer :=
  after (Ring_Buffer_Init (replicate 4 0) 4) blank.

(** A 4-byte ring holding three bytes: [lenght = max_length - 1]. *)
Definition three_of_four : ring_buffer :=
  after (Ring_Buffer_Write_String [1; 2; 3] 3) fresh4.

(** A 4-byte ring from which the two bytes [0xAA; 0xBB] were written
    and read back: nothing is stored, the bytes are still in the array. *)
Definition drained : ring_buffer :=
  after (Ring_Buffer_Write_String [0xAA; 0xBB] 2 ;; Ring_Buffer_Read_String 2) fresh4.

(** A 64-byte ring holding fifty bytes. *)
Definition fifty_of_64 : ring_buffer :=
  after (Ring_Buffer_Init (replicate 64 0) 64 ;;
         Ring_Buffer_Write_String (replicate 50 7) 50)
        blank.

(** What a sequence of calls returns, when it returns. *)
Definition result {A} (m : M A) (rb : ring_buffer) : option A :=
  match run m rb with
  | Ret (a, _) => Some a
  | Undefined => None
  | OutOfFuel => None
  end.

(** A 4-byte ring holding the single byte [1]. *)
Definition one_of_four : ring_buffer :=
  after (Ring_Buffer_Write_String [1] 1) fresh4.

(** A 4-byte ring bound to an array of [0xFF] bytes, still empty. *)
Definition fresh4_ff : ring_buffer :=
  after (Ring_Buffer_Init (replicate 4 255) 4) blank.

(** A 4-byte ring that [Ring_Buffer_Write_String] has filled to the last
    slot. *)
Definition four_of_four : ring_buffer :=
  after (Ring_Buffer_Write_String [4] 1) three_of_four.

(** ** Sequences of calls and the queue they implement *)

(** A call a producer or a consumer can make (keyword insertion as
    compiled for a little-endian host); results are dropped. *)
Inductive call : Type :=
| Write_Byte_call (rb_data : Z)
| Read_Byte_call
| Write_String_call (input_addr : list Z)
| Read_String_call (read_lenght : Z)
| Delete_call (lenght_arg : Z)
| Insert_Keyword_call (keyword keyword_lenght : Z).

Definition do_call (c : call) : M unit :=
  match c with
  | Write_Byte_call rb_data => Ring_Buffer_Write_Byte rb_data ;; ret tt
  | Read_Byte_call => Ring_Buffer_Read_Byte ;; ret tt
  | Write_String_call input_addr =>
      Ring_Buffer_Write_String input_addr (Z.of_nat (length input_addr)) ;; ret tt
  | Read_String_call read_lenght => Ring_Buffer_Read_String read_lenght ;; ret tt
  | Delete_call lenght_arg => Ring_Buffer_Delete lenght_arg ;; ret tt
  | Insert_Keyword_call keyword keyword_lenght =>
      Ring_Buffer_Insert_Keyword LittleEndian keyword keyword_lenght ;; ret tt
  end.

Fixpoint do_calls (cs : list call) : M unit :=
  match cs with
  | [] => ret tt
  | c :: cs => do_call c ;; do_calls cs
  end.

(** What a call does to a first-in first-out queue [q] of bytes held in
    a ring of [cap] slots, when byte writes keep one slot free and block
    writes do not. *)
Definition queue_call (cap : Z) (c : call) (q : list Z) : list Z :=
  let len := Z.of_nat (length q) in
  match c with
  | Write_Byte_call rb_data =>
      if len =? cap - 1 then q else q ++ [uint8_t rb_data]
  | Read_Byte_call => drop 1 q
  | Write_String_call input_addr =>
      if len + Z.of_nat (length input_addr) <=? cap then q ++ input_addr else q
  | Read_String_call read_lenght =>
      if uint32_t read_lenght <=? len then drop (Z.to_nat (uint32_t read_lenght)) q
      else q
  | Delete_call lenght_arg =>
      if uint8_t lenght_arg <=? len then drop (Z.to_nat (uint8_t lenght_arg)) q
      else q
  | Insert_Keyword_call keyword keyword_lenght =>
      if len + uint8_t keyword_lenght <=? cap
      then q ++ take (Z.to_nat (uint8_t keyword_lenght)) (be_bytes (uint32_t keyword) 4)
      else q
  end.

Definition queue_calls (cap : Z) (cs : list call) (q : list Z) : list Z :=
  fold_left (fun q c => queue_call cap c q) cs q.

(** Calls of a producer that writes byte by byte. *)
Definition byte_writer (c : call) : Prop :=
  match c with
  | Write_String_call _ => False
  | Insert_Keyword_call _ _ => False
  | _ => True
  end.

(** Calls of a producer that writes blocks and keywords of at most four
    bytes. *)
Definition block_writer (c : call) : Prop :=
  match c with
  | Write_Byte_call _ => False
  | Write_String_call input_addr => Z.of_nat (length input_addr) < 2 ^ 31
  | Insert_Keyword_call _ keyword_lenght => uint8_t keyword_lenght <= 4
  | _ => True
  end.

(** ** The paragraphs of the test program *)

(** What [test_rb_find_keyword] does for each paragraph it produces, for
    any paragraph [text]. *)
Definition write_paragraph (text : list Z) : M Z :=
  Ring_Buffer_Write_String text (Z.of_nat (length text)) ;;
  Ring_Buffer_Insert_Keyword LittleEndian SEPARATE_SIGN SEPARATE_SIGN_SIZE.

(** One turn of its consumer loop, without the [printf]: the bytes that
    reach [get], an array of 16 bytes. *)
Definition read_paragraph (fuel : nat) : M (list Z) :=
  d <- Ring_Buffer_Find_Keyword fuel SEPARATE_SIGN SEPARATE_SIGN_SIZE ;;
  let length_ := uint8_t (uint32_t (d - 1)) in
  r <- Ring_Buffer_Read_String length_ ;;
  (if Z.of_nat (length (snd r)) >? 16 then undefined else ret tt) ;;
  Ring_Buffer_Delete SEPARATE_SIGN_SIZE ;;
  ret (snd r).

Fixpoint read_paragraphs (fuel : nat) (String_Count : nat) : M (list (list Z)) :=
  match String_Count with
  | O => ret []
  | S String_Count =>
      text <- read_paragraph fuel ;;
      texts <- read_paragraphs fuel String_Count ;;
      ret (text :: texts)
  end.

Fixpoint write_paragraphs (texts : list (list Z)) : M unit :=
  match texts with
  | [] => ret tt
  | text :: texts => write_paragraph text ;; write_paragraphs texts
  end.

(** The big-endian bytes of the keyword stand in [q] from offset [j]. *)
Definition keyword_stands_at (q : list Z) (K L j : Z) : Prop :=
  take (Z.to_nat L) (drop (Z.to_nat j) q) = be_bytes K L.

(** The bytes a producer stores for a list of paragraphs. *)
Definition paragraphs_bytes (texts : list (list Z)) : list Z :=
  concat (map (fun text => text ++ be_bytes SEPARATE_SIGN SEPARATE_SIGN_SIZE) texts).

(** The 8-byte ring [wrapped] before its keyword was inserted: the two
    bytes [1; 2] stored from index 5 on. *)
Definition two_near_the_end : ring_buffer :=
  after (Ring_Buffer_Init (replicate 8 0) 8 ;;
         Ring_Buffer_Write_String [9; 9; 9; 9; 9] 5 ;;
         Ring_Buffer_Read_String 5 ;;
         Ring_Buffer_Write_String [1; 2] 2)
        blank.

(** The handle of [test_rb_find_keyword] once bound to a zeroed array,
    and the three paragraphs it writes (without their NUL). *)
Definition test_start : ring_buffer :=
  after (Ring_Buffer_Init (replicate 256 0) Read_BUFFER_SIZE) blank.

Definition test_paragraphs : list (list Z) :=
  [take 13 str_ABCDEFGHIJK; take 9 str_abcdefg; [49; 50; 51; 52; 13; 10]].
(** ** Reasoning about the monad *)

Lemma run_bind {A B} (m : M A) (k : A -> M B) rb :
  run (bind m k) rb =
  match run m rb with
  | Ret (a, rb') => run (k a) rb'
  | Undefined => Undefined
  | OutOfFuel => OutOfFuel
  end.
Proof. unfold run, bind. destruct (m rb) as [[a rb']| |]; reflexivity. Qed.

Lemma bind_inv {A B} (m : M A) (k : A -> M B) rb b rb2 :
  run (bind m k) rb = Ret (b, rb2) ->
  exists a rb1, run m rb = Ret (a, rb1) /\ run (k a) rb1 = Ret (b, rb2).
Proof.
  rewrite run_bind. destruct (run m rb) as [[a rb1]| |]; try discriminate.
  intros H. exists a, rb1. split; [reflexivity | exact H].
Qed.

(** A computation that ends in [ret v] can only return [v]. *)
Lemma bind_ret_const {A B} (m : M A) (v : B) rb x rb' :
  run (m ;; ret v) rb = Ret (x, rb') -> x = v.
Proof.
  intros H. apply bind_inv in H as (a & rb1 & _ & H).
  unfold run, ret in H. congruence.
Qed.

(** *** Read-only computations *)

Lemma read_only_ret {A} (a : A) : read_only (ret a).
Proof. intros rb x rb' H. unfold run, ret in H. congruence. Qed.

Lemma read_only_undefined {A} : read_only (@undefined A).
Proof. intros rb x rb' H. discriminate. Qed.

Lemma read_only_out_of_fuel {A} : read_only (@out_of_fuel A).
Proof. intros rb x rb' H. discriminate. Qed.

Lemma read_only_bind {A B} (m : M A) (k : A -> M B) :
  read_only m -> (forall a, read_only (k a)) -> read_only (bind m k).
Proof.
  intros Hm Hk rb b rb2 H.
  apply bind_inv in H as (a & rb1 & H1 & H2).
  apply Hm in H1. apply Hk in H2. congruence.
Qed.

Lemma read_only_get_head : read_only get_head.
Proof. intros rb x rb' H. unfold run, get_head in H. congruence. Qed.

Lemma read_only_get_tail : read_only get_tail.
Proof. intros rb x rb' H. unfold run, get_tail in H. congruence. Qed.

Lemma read_only_get_lenght : read_only get_lenght.
Proof. intros rb x rb' H. unfold run, get_lenght in H. congruence. Qed.

Lemma read_only_get_max_length : read_only get_max_length.
Proof. intros rb x rb' H. unfold run, get_max_length in H. congruence. Qed.

Lemma read_only_load off : read_only (load off).
Proof.
  intros rb x rb' H. unfold run, load in H.
  destruct (0 <=? off); [|discriminate].
  destruct (array_addr rb !! Z.to_nat off); [congruence | discriminate].
Qed.

Lemma read_only_shift_right32 x s : read_only (shift_right32 x s).
Proof.
  unfold shift_right32.
  destruct ((0 <=? s) && (s <? 32)); [apply read_only_ret | apply read_only_undefined].
Qed.

Lemma read_only_shift_left32 b s : read_only (shift_left32 b s).
Proof.
  unfold shift_left32.
  destruct ((0 <=? s) && (s <? 32)); [apply read_only_ret | apply read_only_undefined].
Qed.

Lemma read_only_if {A} (c : bool) (m1 m2 : M A) :
  read_only m1 -> read_only m2 -> read_only (if c then m1 else m2).
Proof. destruct c; trivial. Qed.

Create HintDb read_only_db.
#[local] Hint Resolve read_only_ret read_only_undefined read_only_out_of_fuel
  read_only_get_head read_only_get_tail read_only_get_lenght
  read_only_get_max_length read_only_load read_only_shift_right32
  read_only_shift_left32 : read_only_db.

Ltac read_only_step :=
  first [ solve [auto with read_only_db]
        | apply read_only_if
        | apply read_only_bind; [|intros ?] ].

Lemma read_only_Get_Word_loop fuel :
  forall read_lenght i head rb_data,
    read_only (Get_Word_loop fuel read_lenght i head rb_data).
Proof.
  induction fuel as [|fuel IH]; intros read_lenght i head rb_data;
    cbn [Get_Word_loop].
  - apply read_only_out_of_fuel.
  - repeat read_only_step.
Qed.

Lemma read_only_Get_Word head read_lenght :
  read_only (Ring_Buffer_Get_Word head read_lenght).
Proof. unfold Ring_Buffer_Get_Word. apply read_only_Get_Word_loop. Qed.
#[local] Hint Resolve read_only_Get_Word : read_only_db.

Lemma read_only_Find_Keyword_loop fuel :
  forall keyword keyword_lenght max_find_lenght trigger_word distance find_head,
    read_only (Find_Keyword_loop fuel keyword keyword_lenght max_find_lenght
                 trigger_word distance find_head).
Proof.
  induction fuel as [|fuel IH]; intros; cbn [Find_Keyword_loop].
  - apply read_only_out_of_fuel.
  - apply read_only_if; [|auto with read_only_db].
    apply read_only_bind; [auto with read_only_db|intros b].
    apply read_only_bind.
    + repeat read_only_step.
    + intros [|]; [auto with read_only_db|].
      apply read_only_bind; [auto with read_only_db|intros ml]. apply IH.
Qed.

Lemma read_only_Find_Keyword_scan fuel keyword keyword_lenght :
  read_only (Find_Keyword_scan fuel keyword keyword_lenght).
Proof.
  unfold Find_Keyword_scan. repeat read_only_step.
  apply read_only_Find_Keyword_loop.
Qed.

Lemma read_only_Find_Keyword fuel keyword keyword_lenght :
  read_only (Ring_Buffer_Find_Keyword fuel keyword keyword_lenght).
Proof.
  unfold Ring_Buffer_Find_Keyword. apply read_only_bind.
  - apply read_only_Find_Keyword_scan.
  - intros r. apply read_only_ret.
Qed.

(** *** Weakest preconditions *)

Lemma wp_elim {A} (m : M A) Q rb :
  wp m Q rb -> exists a rb', run m rb = Ret (a, rb') /\ Q a rb'.
Proof.
  unfold wp. destruct (run m rb) as [[a rb']| |]; [eauto | easy..].
Qed.

Lemma wp_intro {A} (m : M A) (Q : A -> ring_buffer -> Prop) rb a rb' :
  run m rb = Ret (a, rb') -> Q a rb' -> wp m Q rb.
Proof. unfold wp. intros ->. trivial. Qed.

Lemma wp_mono {A} (m : M A) (Q Q' : A -> ring_buffer -> Prop) rb :
  wp m Q rb -> (forall a rb', Q a rb' -> Q' a rb') -> wp m Q' rb.
Proof.
  unfold wp. destruct (run m rb) as [[a rb']| |]; [auto | easy..].
Qed.

Lemma wp_ret {A} (a : A) (Q : A -> ring_buffer -> Prop) rb :
  Q a rb -> wp (ret a) Q rb.
Proof. trivial. Qed.

Lemma wp_bind {A B} (m : M A) (k : A -> M B) Q rb :
  wp m (fun a rb' => wp (k a) Q rb') rb -> wp (bind m k) Q rb.
Proof.
  unfold wp. rewrite run_bind.
  destruct (run m rb) as [[a rb']| |]; [trivial | easy..].
Qed.

Lemma wp_get_head (Q : Z -> ring_buffer -> Prop) rb :
  Q (head rb) rb -> wp get_head Q rb.
Proof. trivial. Qed.

Lemma wp_get_tail (Q : Z -> ring_buffer -> Prop) rb :
  Q (tail rb) rb -> wp get_tail Q rb.
Proof. trivial. Qed.

Lemma wp_get_lenght (Q : Z -> ring_buffer -> Prop) rb :
  Q (lenght rb) rb -> wp get_lenght Q rb.
Proof. trivial. Qed.

Lemma wp_get_max_length (Q : Z -> ring_buffer -> Prop) rb :
  Q (max_length rb) rb -> wp get_max_length Q rb.
Proof. trivial. Qed.

Lemma wp_set_head v (Q : unit -> ring_buffer -> Prop) rb :
  Q tt (mk_ring_buffer v (tail rb) (lenght rb) (array_addr rb) (max_length rb)) ->
  wp (set_head v) Q rb.
Proof. trivial. Qed.

Lemma wp_set_tail v (Q : unit -> ring_buffer -> Prop) rb :
  Q tt (mk_ring_buffer (head rb) v (lenght rb) (array_addr rb) (max_length rb)) ->
  wp (set_tail v) Q rb.
Proof. trivial. Qed.

Lemma wp_set_lenght v (Q : unit -> ring_buffer -> Prop) rb :
  Q tt (mk_ring_buffer (head rb) (tail rb) v (array_addr rb) (max_length rb)) ->
  wp (set_lenght v) Q rb.
Proof. trivial. Qed.

Lemma wp_load off b (Q : Z -> ring_buffer -> Prop) rb :
  0 <= off -> array_addr rb !! Z.to_nat off = Some b -> Q b rb ->
  wp (load off) Q rb.
Proof.
  intros Hoff Hb HQ. unfold wp, run, load.
  destruct (Z.leb_spec 0 off); [|lia]. rewrite Hb. exact HQ.
Qed.

Lemma wp_store off v (Q : unit -> ring_buffer -> Prop) rb :
  0 <= off < Z.of_nat (length (array_addr rb)) ->
  Q tt (mk_ring_buffer (head rb) (tail rb) (lenght rb)
          (<[Z.to_nat off := v]> (array_addr rb)) (max_length rb)) ->
  wp (store off v) Q rb.
Proof.
  intros Hoff HQ. unfold wp, run, store.
  destruct (Z.leb_spec 0 off); [|lia].
  destruct (Z.ltb_spec off (Z.of_nat (length (array_addr rb)))); [|lia].
  exact HQ.
Qed.

Lemma wp_memcpy_to_array off src n (Q : unit -> ring_buffer -> Prop) rb :
  0 <= off -> 0 <= n ->
  off + n <= Z.of_nat (length (array_addr rb)) ->
  n <= Z.of_nat (length src) ->
  Q tt (mk_ring_buffer (head rb) (tail rb) (lenght rb)
          (list_inserts (Z.to_nat off) (take (Z.to_nat n) src) (array_addr rb))
          (max_length rb)) ->
  wp (memcpy_to_array off src n) Q rb.
Proof.
  intros Hoff Hn Hfit Hsrc HQ. unfold wp, run, memcpy_to_array.
  destruct (Z.leb_spec 0 off); [|lia].
  destruct (Z.leb_spec 0 n); [|lia].
  destruct (Z.leb_spec (off + n) (Z.of_nat (length (array_addr rb)))); [|lia].
  destruct (Z.leb_spec n (Z.of_nat (length src))); [|lia].
  exact HQ.
Qed.

Lemma wp_memcpy_from_array off n (Q : list Z -> ring_buffer -> Prop) rb :
  0 <= off -> 0 <= n ->
  off + n <= Z.of_nat (length (array_addr rb)) ->
  Q (take (Z.to_nat n) (drop (Z.to_nat off) (array_addr rb))) rb ->
  wp (memcpy_from_array off n) Q rb.
Proof.
  intros Hoff Hn Hfit HQ. unfold wp, run, memcpy_from_array.
  destruct (Z.leb_spec 0 off); [|lia].
  destruct (Z.leb_spec 0 n); [|lia].
  destruct (Z.leb_spec (off + n) (Z.of_nat (length (array_addr rb)))); [|lia].
  exact HQ.
Qed.

(** *** Machine arithmetic in range *)

Lemma uint32_small x : 0 <= x < 2 ^ 32 -> uint32_t x = x.
Proof. apply Z.mod_small. Qed.

Lemma uint8_small x : 0 <= x < 2 ^ 8 -> uint8_t x = x.
Proof. apply Z.mod_small. Qed.

Lemma uint32_range x : 0 <= uint32_t x < 2 ^ 32.
Proof. apply Z.mod_pos_bound. lia. Qed.

Lemma uint8_range x : 0 <= uint8_t x < 2 ^ 8.
Proof. apply Z.mod_pos_bound. lia. Qed.

Ltac small :=
  repeat match goal with
         | |- context [uint32_t ?x] => rewrite (uint32_small x) by lia
         | |- context [uint8_t ?x] => rewrite (uint8_small x) by lia
         end.

Ltac wp_step :=
  cbv beta;
  lazymatch goal with
  | |- wp (bind _ _) _ _ => apply wp_bind
  | |- wp get_head _ _ => apply wp_get_head
  | |- wp get_tail _ _ => apply wp_get_tail
  | |- wp get_lenght _ _ => apply wp_get_lenght
  | |- wp get_max_length _ _ => apply wp_get_max_length
  | |- wp (set_head _) _ _ => apply wp_set_head
  | |- wp (set_tail _) _ _ => apply wp_set_tail
  | |- wp (set_lenght _) _ _ => apply wp_set_lenght
  | |- wp (ret _) _ _ => apply wp_ret
  end.

(** *** Running the primitives *)

Lemma run_ret {A} (a : A) rb : run (ret a) rb = Ret (a, rb).
Proof. reflexivity. Qed.

Lemma run_get_head rb : run get_head rb = Ret (head rb, rb).
Proof. reflexivity. Qed.

Lemma run_get_lenght rb : run get_lenght rb = Ret (lenght rb, rb).
Proof. reflexivity. Qed.

Lemma run_get_max_length rb : run get_max_length rb = Ret (max_length rb, rb).
Proof. reflexivity. Qed.

Lemma run_load off b rb :
  0 <= off -> array_addr rb !! Z.to_nat off = Some b ->
  run (load off) rb = Ret (b, rb).
Proof.
  intros Hoff Hb. unfold run, load.
  destruct (Z.leb_spec 0 off); [|lia]. by rewrite Hb.
Qed.

Lemma run_bind_Ret {A B} (m : M A) (k : A -> M B) rb a rb' :
  run m rb = Ret (a, rb') -> run (bind m k) rb = run (k a) rb'.
Proof. intros H. rewrite run_bind, H. reflexivity. Qed.
(** ** Windows of a ring *)

Section window.
Context {A : Type}.
Implicit Types (arr src : list A) (h l n i j : nat).

Lemma lookup_app_decide arr src i :
  (arr ++ src) !! i =
  if decide (i < length arr)%nat then arr !! i else src !! (i - length arr)%nat.
Proof.
  case_decide.
  - by rewrite lookup_app_l.
  - rewrite lookup_app_r; [done | lia].
Qed.

Lemma lookup_inserts_decide arr src i j :
  list_inserts i src arr !! j =
  if decide (i <= j < i + length src /\ j < length arr)%nat
  then src !! (j - i)%nat else arr !! j.
Proof.
  case_decide as H.
  - apply list_lookup_inserts; lia.
  - destruct (decide (j < i)%nat); [by apply list_lookup_inserts_lt|].
    destruct (decide (i + length src <= j)%nat); [by apply list_lookup_inserts_ge|].
    rewrite !lookup_ge_None_2; [done | lia |].
    rewrite length_inserts. lia.
Qed.

Lemma lookup_window arr h l i :
  (h <= length arr)%nat ->
  window arr h l !! i =
  if decide (i < l)%nat then
    if decide (h + i < length arr)%nat then arr !! (h + i)%nat
    else arr !! (h + i - length arr)%nat
  else None.
Proof.
  intros Hh. unfold window. rewrite lookup_take.
  case_decide; [|done].
  rewrite lookup_drop, lookup_app_decide. by repeat case_decide.
Qed.

Lemma length_window arr h l :
  (h <= length arr)%nat -> (l <= length arr)%nat -> length (window arr h l) = l.
Proof.
  intros. unfold window.
  rewrite length_take, length_drop, length_app. lia.
Qed.

Lemma window_take arr h l n :
  (n <= l)%nat -> take n (window arr h l) = window arr h n.
Proof. intros. unfold window. rewrite take_take. f_equal. lia. Qed.

Lemma window_nosplit arr h n :
  (h + n <= length arr)%nat -> window arr h n = take n (drop h arr).
Proof.
  intros. unfold window. rewrite drop_app_le by lia.
  rewrite take_app_le; [done|]. rewrite length_drop. lia.
Qed.

Lemma window_split arr h n :
  (h <= length arr)%nat -> (length arr <= h + n)%nat ->
  window arr h n =
  take (length arr - h) (drop h arr) ++ take (n - (length arr - h)) arr.
Proof.
  intros. unfold window. rewrite drop_app_le by lia.
  rewrite take_app, length_drop. f_equal.
  rewrite !take_ge; [done | rewrite length_drop; lia..].
Qed.

Lemma window_drop arr h l n :
  (h < length arr)%nat -> (n <= l)%nat -> (l <= length arr)%nat ->
  drop n (window arr h l) =
  window arr (if decide (h + n < length arr)%nat then h + n
              else h + n - length arr)%nat (l - n).
Proof.
  intros. apply list_eq. intros i.
  rewrite lookup_drop, !lookup_window by (try case_decide; lia).
  repeat case_decide; try lia; try done; f_equal; lia.
Qed.

Lemma window_inserts arr h l t src :
  (h < length arr)%nat -> (l + length src <= length arr)%nat ->
  (t < length arr)%nat ->
  (t = h + l \/ t + length arr = h + l)%nat ->
  (t + length src <= length arr)%nat ->
  window (list_inserts t src arr) h (l + length src) = window arr h l ++ src.
Proof.
  intros. apply list_eq. intros i.
  rewrite lookup_app_decide, length_window by lia.
  rewrite !lookup_window by (rewrite ?length_inserts; lia).
  rewrite length_inserts, !lookup_inserts_decide.
  repeat case_decide; try lia; try done; try (f_equal; lia).
  all: rewrite lookup_ge_None_2; [done | lia].
Qed.

Lemma window_inserts_split arr h l t src1 src2 :
  (h < length arr)%nat ->
  (l + (length src1 + length src2) <= length arr)%nat ->
  (t < length arr)%nat ->
  (t = h + l \/ t + length arr = h + l)%nat ->
  (t + length src1 = length arr)%nat ->
  window (list_inserts 0 src2 (list_inserts t src1 arr)) h
         (l + (length src1 + length src2))
  = window arr h l ++ src1 ++ src2.
Proof.
  intros. apply list_eq. intros i.
  rewrite lookup_app_decide, length_window by lia.
  rewrite !lookup_window by (rewrite ?length_inserts; lia).
  rewrite lookup_app_decide.
  rewrite !length_inserts, !lookup_inserts_decide, !length_inserts.
  repeat case_decide; try lia; try done; try (f_equal; lia).
  symmetry. apply lookup_ge_None_2. lia.
Qed.
End window.

(** ** What the block operations do to a well-formed handle *)

(** Reading [n] stored bytes returns the first [n] of them and leaves
    the rest, whether or not the copy is split at the end of the array. *)
Lemma Read_String_spec rb n :
  wf rb -> 0 <= n <= lenght rb ->
  wp (Ring_Buffer_Read_String n)
     (fun r rb' =>
        r = (RING_BUFFER_SUCCESS, take (Z.to_nat n) (contents rb)) /\
        wf rb' /\
        contents rb' = drop (Z.to_nat n) (contents rb) /\
        lenght rb' = lenght rb - n /\
        array_addr rb' = array_addr rb /\
        max_length rb' = max_length rb) rb.
Proof.
  intros (Hsz & Hmax & Hh & Ht & Hl & Hth) Hn.
  destruct rb as [h t l a m]; cbn in *.
  unfold Ring_Buffer_Read_String. small.
  do 2 wp_step. cbn.
  destruct (n >? l) eqn:E1; [lia|].
  do 4 wp_step. cbn. small.
  destruct (n >? m - h) eqn:E2.
  - small. destruct (n - (m - h) =? 0) eqn:E3; [lia|]. cbn.
    wp_step. apply wp_memcpy_from_array; cbn; [lia..|].
    wp_step. apply wp_memcpy_from_array; cbn; [lia..|].
    repeat wp_step. cbn. small.
    unfold contents, wf; cbn.
    rewrite window_take by lia.
    rewrite (window_split a (Z.to_nat h) (Z.to_nat n)) by lia.
    rewrite window_drop by lia.
    case_decide; [lia|].
    split_and!; try lia; try done.
    + do 2 f_equal; [f_equal; lia | rewrite drop_0; f_equal; lia].
    + f_equal; lia.
  - destruct (0 =? 0) eqn:E3; [|lia]. cbn.
    wp_step. apply wp_memcpy_from_array; cbn; [lia..|].
    repeat wp_step. cbn. small.
    destruct (h + n =? m) eqn:E4; repeat wp_step; cbn.
    all: unfold contents, wf; cbn.
    all: rewrite window_take by lia.
    all: rewrite (window_nosplit a (Z.to_nat h) (Z.to_nat n)) by lia.
    all: rewrite window_drop by lia.
    all: case_decide; try lia.
    all: split_and!; try lia; try done.
    all: f_equal; lia.
Qed.

Lemma take_add_drop {A} (l : list A) (a b : nat) :
  take (a + b) l = take a l ++ take b (drop a l).
Proof.
  revert l. induction a as [|a IH]; intros [|x l]; cbn; try done.
  - by rewrite take_nil.
  - by rewrite IH.
Qed.

(** Writing a block that fits appends its bytes after the stored ones,
    whether or not the copy is split at the end of the array. *)
Lemma Write_String_spec rb input n :
  wf rb -> 0 <= n -> lenght rb + n <= max_length rb ->
  n <= Z.of_nat (length input) ->
  wp (Ring_Buffer_Write_String input n)
     (fun r rb' =>
        r = RING_BUFFER_SUCCESS /\
        wf rb' /\
        contents rb' = contents rb ++ take (Z.to_nat n) input /\
        lenght rb' = lenght rb + n /\
        head rb' = head rb /\
        max_length rb' = max_length rb) rb.
Proof.
  intros (Hsz & Hmax & Hh & Ht & Hl & Hth) Hn Hfit Hin.
  destruct rb as [h t l a m]; cbn in *.
  unfold Ring_Buffer_Write_String. small.
  do 4 wp_step. cbn. small.
  destruct (l + n >? m) eqn:E1; [lia|].
  do 2 wp_step. cbn. small.
  destruct (n >? m - t) eqn:E2.
  - replace (m - t <? n) with true by lia. small.
    destruct (n - (m - t) =? 0) eqn:E3; [lia|]. cbn.
    do 2 wp_step. apply wp_memcpy_to_array; cbn; [lia..|].
    wp_step. apply wp_memcpy_to_array; cbn;
      [try lia; rewrite ?length_inserts, ?length_drop; lia..|].
    repeat wp_step. cbn. small.
    unfold contents, wf; cbn. rewrite !length_inserts.
    split_and!; try lia; try done.
    replace (Z.to_nat n) with (Z.to_nat (m - t) + Z.to_nat (n - (m - t)))%nat by lia.
    rewrite take_add_drop.
    set (src1 := take (Z.to_nat (m - t)) input).
    set (src2 := take (Z.to_nat (n - (m - t))) (drop (Z.to_nat (m - t)) input)).
    assert (length src1 = Z.to_nat (m - t)) as H1
      by (unfold src1; rewrite length_take; lia).
    assert (length src2 = Z.to_nat (n - (m - t))) as H2
      by (unfold src2; rewrite length_take, length_drop; lia).
    replace (Z.to_nat (l + n)) with (Z.to_nat l + (length src1 + length src2))%nat by lia.
    apply window_inserts_split; lia.
  - replace (m - t <? n) with false by lia. cbn.
    do 2 wp_step. apply wp_memcpy_to_array; cbn; [lia..|].
    repeat wp_step. cbn. small.
    set (src := take (Z.to_nat n) input).
    assert (length src = Z.to_nat n) as H1
      by (unfold src; rewrite length_take; lia).
    destruct (t + n =? m) eqn:E3; repeat wp_step; cbn.
    all: unfold contents, wf; cbn; rewrite !length_inserts.
    all: split_and!; try lia; try done.
    all: replace (Z.to_nat (l + n)) with (Z.to_nat l + length src)%nat by lia.
    all: apply window_inserts; lia.
Qed.

(** Deleting [n] stored bytes moves [head] on by [n] around the ring. *)
Lemma Delete_spec rb n :
  wf rb -> 0 <= n < 256 -> n <= lenght rb -> max_length rb + 255 < 2 ^ 32 ->
  wp (Ring_Buffer_Delete n)
     (fun r rb' =>
        r = RING_BUFFER_SUCCESS /\
        rb' = mk_ring_buffer
                (if head rb + n <? max_length rb then head rb + n
                 else head rb + n - max_length rb)
                (tail rb) (lenght rb - n) (array_addr rb) (max_length rb)) rb.
Proof.
  intros (Hsz & Hmax & Hh & Ht & Hl & Hth) Hn Hle Hcap.
  destruct rb as [h t l a m]; cbn in *.
  unfold Ring_Buffer_Delete. small.
  do 2 wp_step. cbn.
  destruct (l <? n) eqn:E1; [lia|].
  do 5 wp_step. cbn. small.
  destruct (h + n >=? m) eqn:E2; repeat wp_step; cbn; small.
  - replace (h + n <? m) with false by lia. split; [done|]. f_equal; lia.
  - replace (h + n <? m) with true by lia. done.
Qed.

(** So does reading them. *)
Lemma Read_String_state rb n :
  wf rb -> 0 <= n <= lenght rb ->
  wp (Ring_Buffer_Read_String n)
     (fun r rb' =>
        r.1 = RING_BUFFER_SUCCESS /\
        rb' = mk_ring_buffer
                (if head rb + n <? max_length rb then head rb + n
                 else head rb + n - max_length rb)
                (tail rb) (lenght rb - n) (array_addr rb) (max_length rb)) rb.
Proof.
  intros (Hsz & Hmax & Hh & Ht & Hl & Hth) Hn.
  destruct rb as [h t l a m]; cbn in *.
  unfold Ring_Buffer_Read_String. small.
  do 2 wp_step. cbn.
  destruct (n >? l) eqn:E1; [lia|].
  do 4 wp_step. cbn. small.
  destruct (n >? m - h) eqn:E2.
  - small. destruct (n - (m - h) =? 0) eqn:E3; [lia|]. cbn.
    wp_step. apply wp_memcpy_from_array; cbn; [lia..|].
    wp_step. apply wp_memcpy_from_array; cbn; [lia..|].
    repeat wp_step. cbn. small.
    replace (h + n <? m) with false by lia. split; [done|]. f_equal; lia.
  - destruct (0 =? 0) eqn:E3; [|lia]. cbn.
    wp_step. apply wp_memcpy_from_array; cbn; [lia..|].
    repeat wp_step. cbn. small.
    destruct (h + n =? m) eqn:E4; repeat wp_step; cbn.
    + replace (h + n <? m) with false by lia. split; [done|]. f_equal; lia.
    + replace (h + n <? m) with true by lia. done.
Qed.

(** Asking for more than is stored fails. *)
Lemma Delete_too_long rb n :
  0 <= n < 256 -> lenght rb < n ->
  run (Ring_Buffer_Delete n) rb = Ret (RING_BUFFER_ERROR, rb).
Proof.
  intros Hn Hlt. destruct rb as [h t l a m]; cbn in *.
  unfold run, Ring_Buffer_Delete. small. cbn.
  by replace (l <? n) with true by lia.
Qed.

Lemma Read_String_too_long rb n :
  0 <= n < 2 ^ 32 -> lenght rb < n ->
  run (Ring_Buffer_Read_String n) rb = Ret ((RING_BUFFER_ERROR, []), rb).
Proof.
  intros Hn Hlt. destruct rb as [h t l a m]; cbn in *.
  unfold run, Ring_Buffer_Read_String. small. cbn.
  by replace (n >? l) with true by lia.
Qed.

(** ** Calls that report failure *)

Ltac peel H := repeat (apply bind_inv in H as (? & ? & _ & H)).
Ltac absurd_status H :=
  peel H; unfold run, ret, RING_BUFFER_ERROR, RING_BUFFER_SUCCESS in H; congruence.
Ltac unchanged H := unfold run, ret in H; congruence.

Lemma Write_Byte_error rb d rb' :
  run (Ring_Buffer_Write_Byte d) rb = Ret (RING_BUFFER_ERROR, rb') -> rb' = rb.
Proof.
  destruct rb as [h t l a m]. unfold run, Ring_Buffer_Write_Byte. cbn.
  destruct (l =? uint32_t (m - 1)); intros H; [unchanged H | absurd_status H].
Qed.

Lemma Read_Byte_error rb rb' :
  run Ring_Buffer_Read_Byte rb = Ret (None, rb') -> rb' = rb.
Proof.
  destruct rb as [h t l a m]. unfold run, Ring_Buffer_Read_Byte. cbn.
  destruct (l =? 0); cbn; intros H; [unchanged H|].
  peel H. unfold run, ret in H. congruence.
Qed.

Lemma Write_String_error rb input n rb' :
  run (Ring_Buffer_Write_String input n) rb = Ret (RING_BUFFER_ERROR, rb') -> rb' = rb.
Proof.
  destruct rb as [h t l a m]. unfold run, Ring_Buffer_Write_String. cbn.
  destruct (uint32_t (l + uint32_t n) >? m); [intros H; unchanged H|]. cbn.
  destruct (uint32_t (m - t) <? uint32_t n); intros H; absurd_status H.
Qed.

Lemma Read_String_error rb n out rb' :
  run (Ring_Buffer_Read_String n) rb = Ret ((RING_BUFFER_ERROR, out), rb') ->
  rb' = rb /\ out = [].
Proof.
  destruct rb as [h t l a m]. unfold run, Ring_Buffer_Read_String. cbn.
  destruct (uint32_t n >? l); [intros H; split; unchanged H|]. cbn.
  destruct (uint32_t n >? uint32_t (m - h)); cbn;
    try match goal with |- context [negb ?c] => destruct c end; cbn;
    intros H; absurd_status H.
Qed.

Lemma Delete_error rb n rb' :
  run (Ring_Buffer_Delete n) rb = Ret (RING_BUFFER_ERROR, rb') -> rb' = rb.
Proof.
  destruct rb as [h t l a m]. unfold run, Ring_Buffer_Delete. cbn.
  destruct (l <? uint8_t n); intros H; [unchanged H | absurd_status H].
Qed.

Lemma Insert_Keyword_error host rb keyword n rb' :
  run (Ring_Buffer_Insert_Keyword host keyword n) rb = Ret (RING_BUFFER_ERROR, rb') ->
  rb' = rb.
Proof.
  unfold Ring_Buffer_Insert_Keyword. destruct host.
  - apply Write_String_error.
  - destruct (0 <=? uint8_t n - 1); [apply Write_String_error | discriminate].
Qed.

(** ** The search loop *)

Lemma read_only_keyword_at keyword keyword_lenght trigger_word find_head :
  read_only (keyword_at keyword keyword_lenght trigger_word find_head).
Proof. unfold keyword_at. repeat read_only_step. Qed.

(** One turn of the [while] loop. *)
Lemma Find_Keyword_loop_step fuel kw L mx tr d p rb :
  run (Find_Keyword_loop (S fuel) kw L mx tr d p) rb =
  if d <=? mx then
    match run (keyword_at kw L tr p) rb with
    | Ret (true, _) => Ret (Found d, rb)
    | Ret (false, _) =>
        run (Find_Keyword_loop fuel kw L mx tr (uint32_t (d + 1))
               (if uint32_t (p + 1) >? uint32_t (max_length rb - 1)
                then 0 else uint32_t (p + 1))) rb
    | Undefined => Undefined
    | OutOfFuel => OutOfFuel
    end
  else Ret (NotFound, rb).
Proof.
  cbn [Find_Keyword_loop]. destruct (d <=? mx); [|reflexivity].
  unfold keyword_at. rewrite !run_bind.
  destruct (run (load p) rb) as [[b rb1]| |] eqn:Hload; try reflexivity.
  apply read_only_load in Hload as ->.
  rewrite !run_bind.
  destruct (b =? tr).
  - rewrite run_bind.
    destruct (run (Ring_Buffer_Get_Word p L) rb) as [[w rb1]| |] eqn:Hw;
      try reflexivity.
    apply read_only_Get_Word in Hw as ->.
    unfold run at 1 2, ret at 1 2.
    destruct (w =? kw); reflexivity.
  - reflexivity.
Qed.

Lemma mod_wrap x m : m <= x < 2 * m -> x mod m = x - m.
Proof. intros H. symmetry. apply (Z.mod_unique x m 1); lia. Qed.

Lemma position_range rb k :
  0 < max_length rb -> 0 <= position rb k < max_length rb.
Proof. intros. apply Z.mod_pos_bound. lia. Qed.

Lemma position_0 rb : valid_head rb -> position rb 0 = head rb.
Proof.
  intros [Hh _]. unfold position. rewrite Z.add_0_r. apply Z.mod_small. lia.
Qed.

(** Incrementing an index as the loops do is moving one place round. *)
Lemma position_next rb k :
  0 < max_length rb < 2 ^ 32 ->
  (if uint32_t (position rb k + 1) >? uint32_t (max_length rb - 1)
   then 0 else uint32_t (position rb k + 1)) = position rb (k + 1).
Proof.
  intros Hm. pose proof (position_range rb k) as Hp.
  unfold position in *.
  rewrite (Z.add_assoc (head rb) k 1), <- (Zplus_mod_idemp_l (head rb + k)).
  set (p := (head rb + k) mod max_length rb) in *.
  small.
  destruct (p + 1 >? max_length rb - 1) eqn:E.
  - replace (p + 1) with (max_length rb) by lia. by rewrite Z_mod_same_full.
  - rewrite Z.mod_small; lia.
Qed.

Lemma position_period rb k :
  0 < max_length rb -> position rb (k - max_length rb) = position rb k.
Proof.
  intros. unfold position.
  replace (head rb + (k - max_length rb))
    with (head rb + k + (-1) * max_length rb) by lia.
  apply Z_mod_plus_full.
Qed.

Section first_hit.
Variables (rb : ring_buffer) (kw L mx tr : Z).
Hypothesis Hrb : valid_head rb.

#[local] Abbreviation hit := (hit_at rb kw L tr).

(** When the loop reports a distance, it is one more than the first
    offset from [head] at which the test succeeds. *)
Lemma Find_Keyword_loop_found fuel :
  forall k d rb',
    0 <= k ->
    (forall j, 0 <= j < k -> hit j <> Ret (true, rb)) ->
    run (Find_Keyword_loop fuel kw L mx tr (uint32_t (1 + k)) (position rb k)) rb
      = Ret (Found d, rb') ->
    exists k0, k <= k0 /\ d = uint32_t (1 + k0) /\ hit k0 = Ret (true, rb) /\
               (forall j, 0 <= j < k0 -> hit j <> Ret (true, rb)).
Proof.
  destruct Hrb as [Hh Hm].
  induction fuel as [|fuel IH]; intros k d rb' Hk Hbefore Hrun.
  - discriminate.
  - rewrite Find_Keyword_loop_step in Hrun.
    destruct (uint32_t (1 + k) <=? mx); [|discriminate].
    destruct (run (keyword_at kw L tr (position rb k)) rb)
      as [[[|] rb1]| |] eqn:Hhit; try discriminate.
    + apply read_only_keyword_at in Hhit as Heq. subst rb1.
      injection Hrun as <- <-. exists k. split_and!; try done; lia.
    + apply read_only_keyword_at in Hhit as Heq. subst rb1.
      rewrite position_next in Hrun by lia.
      replace (uint32_t (uint32_t (1 + k) + 1)) with (uint32_t (1 + (k + 1)))
        in Hrun.
      2:{ unfold uint32_t. rewrite Zplus_mod_idemp_l. f_equal. lia. }
      apply IH in Hrun as (k0 & Hk0 & Hd & Hhit0 & Hfirst); [|lia|].
      * exists k0. split_and!; try done; lia.
      * intros j Hj. destruct (decide (j = k)) as [->|]; [|apply Hbefore; lia].
        unfold hit_at. rewrite Hhit. congruence.
Qed.

Lemma first_hit_in_first_lap k0 :
  0 <= k0 -> hit k0 = Ret (true, rb) ->
  (forall j, 0 <= j < k0 -> hit j <> Ret (true, rb)) ->
  k0 < max_length rb.
Proof.
  destruct Hrb as [Hh Hm]. intros Hk0 Hhit Hfirst.
  destruct (decide (k0 < max_length rb)) as [|Hge]; [done|].
  exfalso. apply (Hfirst (k0 - max_length rb)); [lia|].
  unfold hit_at. rewrite position_period by lia. exact Hhit.
Qed.
End first_hit.

(** ** Words and their bytes *)

(** Or-ing a byte in below the bytes already gathered is adding it. *)
Lemma lor_next_byte A b s :
  0 <= A -> 0 <= b < 256 -> 0 <= s ->
  Z.lor (A * 2 ^ (s + 8)) (b * 2 ^ s) = (A * 256 + b) * 2 ^ s.
Proof.
  intros HA Hb Hs.
  assert (Z.land (A * 2 ^ (s + 8)) (b * 2 ^ s) = 0) as Hland.
  { apply Z.bits_inj'. intros n Hn.
    rewrite Z.land_spec, Z.bits_0.
    destruct (decide (n < s + 8)).
    - rewrite Z.mul_pow2_bits_low by lia. reflexivity.
    - rewrite (Z.mul_pow2_bits b) by lia.
      rewrite <- (Z.mod_small b (2 ^ 8)) by lia.
      rewrite Z.mod_pow2_bits_high by lia. apply andb_false_r. }
  rewrite <- Z.lxor_lor, <- Z.add_nocarry_lxor by exact Hland.
  rewrite Z.pow_add_r by lia. change (2 ^ 8) with 256. ring.
Qed.

Lemma position_next_small rb k :
  0 < max_length rb < 2 ^ 32 ->
  (if position rb k + 1 >? max_length rb - 1 then 0 else position rb k + 1)
  = position rb (k + 1).
Proof.
  intros Hm. pose proof (position_range rb k ltac:(lia)) as Hp.
  rewrite <- position_next by lia. by small.
Qed.

(** The [for] loop gathers the bytes it walks over, most significant
    first. *)
Lemma Get_Word_loop_value rb L :
  0 < max_length rb < 2 ^ 32 -> 0 <= L <= 4 ->
  forall bytes i k A fuel,
    1 <= i -> i + Z.of_nat (length bytes) = L + 1 ->
    Forall is_byte bytes ->
    (forall j b, bytes !! j = Some b ->
       array_addr rb !! Z.to_nat (position rb (k + Z.of_nat j)) = Some b) ->
    0 <= A ->
    (length bytes < fuel)%nat ->
    run (Get_Word_loop fuel L i (position rb k)
           (A * 2 ^ (8 * Z.of_nat (length bytes)))) rb
    = Ret (fold_left (fun acc b => acc * 256 + b) bytes A, rb).
Proof.
  intros Hm HL bytes.
  induction bytes as [|b bytes IH]; intros i k A fuel Hi Hlen Hbytes Hat HA Hfuel;
    (destruct fuel as [|fuel]; [cbn in Hfuel; lia|]); cbn [Get_Word_loop].
  - cbn in Hlen. replace (i <=? L) with false by lia.
    cbn. unfold run, ret. f_equal. f_equal. lia.
  - cbn [length] in Hlen, Hfuel.
    replace (i <=? L) with true by lia.
    apply Forall_cons in Hbytes as [Hb Hbytes].
    pose proof (position_range rb k ltac:(lia)) as Hp.
    pose proof (Hat 0%nat b eq_refl) as Hload.
    replace (k + Z.of_nat 0) with k in Hload by lia.
    rewrite run_bind, (run_load _ b) by (done || lia).
    rewrite run_bind. unfold shift_left32. small.
    replace ((0 <=? 8 * (L - i)) && (8 * (L - i) <? 32)) with true by lia.
    rewrite run_ret, run_bind, run_get_max_length. small.
    rewrite position_next_small by lia.
    rewrite Z.shiftl_mul_pow2 by lia.
    assert (0 < 2 ^ (8 * (L - i)) <= 2 ^ 24) as Hpow.
    { split; [apply Z.pow_pos_nonneg; lia|].
      apply Z.pow_le_mono_r; lia. }
    unfold is_byte in Hb.
    rewrite (uint32_small (b * _)) by nia.
    replace (8 * Z.of_nat (length (b :: bytes))) with (8 * (L - i) + 8)
      by (cbn [length]; lia).
    rewrite lor_next_byte by lia.
    replace (8 * (L - i)) with (8 * Z.of_nat (length bytes)) by lia.
    cbn [fold_left].
    apply IH; try lia; try done.
    intros j b' Hj. replace (k + 1 + Z.of_nat j) with (k + Z.of_nat (S j)) by lia.
    apply Hat. exact Hj.
Qed.

Lemma Get_Word_value rb L k bytes :
  0 < max_length rb < 2 ^ 32 -> 0 <= L <= 4 ->
  Z.of_nat (length bytes) = L ->
  Forall is_byte bytes ->
  (forall j b, bytes !! j = Some b ->
     array_addr rb !! Z.to_nat (position rb (k + Z.of_nat j)) = Some b) ->
  run (Ring_Buffer_Get_Word (position rb k) L) rb = Ret (be_value bytes, rb).
Proof.
  intros Hm HL Hlen Hbytes Hat.
  pose proof (position_range rb k ltac:(lia)) as Hp.
  unfold Ring_Buffer_Get_Word. small.
  rewrite <- (Z.mul_0_l (2 ^ (8 * Z.of_nat (length bytes)))) at 1.
  apply Get_Word_loop_value; try done; lia.
Qed.
Lemma be_bytes_length K L : 0 <= L -> Z.of_nat (length (be_bytes K L)) = L.
Proof. intros. unfold be_bytes. rewrite length_map, length_seq. lia. Qed.

Lemma be_bytes_is_byte K L : Forall is_byte (be_bytes K L).
Proof.
  unfold be_bytes. apply Forall_map, Forall_forall. intros i _.
  apply uint8_range.
Qed.

Lemma be_bytes_head K L :
  1 <= L -> be_bytes K L !! 0%nat = Some (uint8_t (Z.shiftr K ((L - 1) * 8))).
Proof.
  intros HL. unfold be_bytes.
  destruct (Z.to_nat L) as [|n] eqn:E; [lia|]. cbn.
  do 3 f_equal. lia.
Qed.

Lemma be_bytes_1 K : be_bytes K 1 = [uint8_t (Z.shiftr K 0)].
Proof. reflexivity. Qed.

Lemma be_bytes_2 K : be_bytes K 2 = [uint8_t (Z.shiftr K 8); uint8_t (Z.shiftr K 0)].
Proof. reflexivity. Qed.

Lemma be_bytes_3 K :
  be_bytes K 3 = [uint8_t (Z.shiftr K 16); uint8_t (Z.shiftr K 8); uint8_t (Z.shiftr K 0)].
Proof. reflexivity. Qed.

Lemma be_bytes_4 K :
  be_bytes K 4 = [uint8_t (Z.shiftr K 24); uint8_t (Z.shiftr K 16);
                  uint8_t (Z.shiftr K 8); uint8_t (Z.shiftr K 0)].
Proof. reflexivity. Qed.

Ltac be_unfold :=
  rewrite ?be_bytes_1, ?be_bytes_2, ?be_bytes_3, ?be_bytes_4;
  unfold be_value, uint8_t; cbn [fold_left];
  rewrite ?Z.shiftr_div_pow2 by lia;
  change (2 ^ 0) with 1; change (2 ^ 8) with 256;
  change (2 ^ 16) with 65536; change (2 ^ 24) with 16777216.

Ltac word_cases L :=
  let H := fresh in
  assert (L = 1 \/ L = 2 \/ L = 3 \/ L = 4) as H by lia;
  destruct H as [-> | [-> | [-> | ->]]].

Lemma be_value_be_bytes K L :
  1 <= L <= 4 -> 0 <= K < 256 ^ L -> be_value (be_bytes K L) = K.
Proof.
  intros HL HK. word_cases L;
    [change (256 ^ 1) with 256 in HK | change (256 ^ 2) with 65536 in HK
    |change (256 ^ 3) with 16777216 in HK | change (256 ^ 4) with 4294967296 in HK];
    be_unfold; Z.div_mod_to_equations; lia.
Qed.

Lemma be_bytes_be_value bytes L :
  1 <= L <= 4 -> Z.of_nat (length bytes) = L -> Forall is_byte bytes ->
  be_bytes (be_value bytes) L = bytes.
Proof.
  intros HL Hlen Hbytes. unfold is_byte in Hbytes.
  word_cases L;
    repeat (destruct bytes as [|? bytes]; try (cbn in Hlen; lia));
    repeat match goal with H : Forall _ (_ :: _) |- _ =>
             apply Forall_cons in H as [? H] end;
    be_unfold; repeat f_equal; Z.div_mod_to_equations; lia.
Qed.

(** ** Searching the stored bytes *)

Lemma contents_length rb :
  wf rb -> length (contents rb) = Z.to_nat (lenght rb).
Proof.
  intros (Hsz & Hmax & Hh & Ht & Hl & Hth). unfold contents.
  apply length_window; lia.
Qed.

Lemma lookup_contents rb i :
  wf rb -> 0 <= i < lenght rb ->
  contents rb !! Z.to_nat i = array_addr rb !! Z.to_nat (position rb i).
Proof.
  intros (Hsz & Hmax & Hh & Ht & Hl & Hth) Hi. unfold contents, position.
  rewrite lookup_window by lia.
  case_decide; [|lia].
  case_decide.
  - rewrite Z.mod_small by lia. f_equal. lia.
  - rewrite mod_wrap by lia. f_equal. lia.
Qed.

Lemma contents_is_byte rb :
  Forall is_byte (array_addr rb) -> Forall is_byte (contents rb).
Proof.
  intros H. unfold contents, window.
  apply Forall_take, Forall_drop, Forall_app. done.
Qed.

(** The test at offset [k] compares the [L] stored bytes from there on
    with the keyword. *)
Lemma keyword_at_contents rb kw L tr k b bytes :
  wf rb -> Forall is_byte (array_addr rb) ->
  1 <= L <= 4 -> 0 <= k -> k + L <= lenght rb ->
  take (Z.to_nat L) (drop (Z.to_nat k) (contents rb)) = b :: bytes ->
  run (keyword_at kw L tr (position rb k)) rb
  = Ret ((b =? tr) && (be_value (b :: bytes) =? kw), rb).
Proof.
  intros Hwf Hbyte HL Hk HkL Hbytes.
  pose proof Hwf as (Hsz & Hmax & Hh & Ht & Hl & Hth).
  pose proof (position_range rb k ltac:(lia)) as Hp.
  assert (forall j x, (b :: bytes) !! j = Some x ->
            array_addr rb !! Z.to_nat (position rb (k + Z.of_nat j)) = Some x)
    as Hat.
  { intros j x Hj. rewrite <- Hbytes in Hj.
    apply lookup_take_Some in Hj as [Hj Hlt].
    rewrite lookup_drop in Hj.
    rewrite <- lookup_contents; [|done|lia].
    rewrite <- Hj. f_equal. lia. }
  assert (Z.of_nat (length (b :: bytes)) = L) as Hlen.
  { rewrite <- Hbytes, length_take, length_drop, contents_length by done. lia. }
  assert (Forall is_byte (b :: bytes)) as Hok.
  { rewrite <- Hbytes. by apply Forall_take, Forall_drop, contents_is_byte. }
  unfold keyword_at.
  rewrite run_bind, (run_load _ b); [|lia|].
  2:{ specialize (Hat 0%nat b eq_refl). by replace (k + Z.of_nat 0) with k in Hat by lia. }
  destruct (b =? tr); [|reflexivity].
  rewrite run_bind, (Get_Word_value rb L k (b :: bytes)) by (done || lia).
  reflexivity.
Qed.

Section scan.
Variables (rb : ring_buffer) (kw L mx tr : Z).
Hypothesis Hrb : valid_head rb.
Hypothesis Hmx : 0 <= mx < 2 ^ 32.

#[local] Abbreviation hit := (hit_at rb kw L tr).

(** With the first success [k0] places after [head], inside the range
    searched, the loop reports [k0 + 1]. *)
Lemma Find_Keyword_loop_finds k0 :
  0 <= k0 -> 1 + k0 <= mx ->
  (forall j, 0 <= j < k0 -> hit j = Ret (false, rb)) ->
  hit k0 = Ret (true, rb) ->
  forall fuel k,
    0 <= k <= k0 -> (Z.to_nat (k0 - k) < fuel)%nat ->
    run (Find_Keyword_loop fuel kw L mx tr (1 + k) (position rb k)) rb
    = Ret (Found (1 + k0), rb).
Proof.
  destruct Hrb as [Hh Hm]. intros Hk0 Hin Hmiss Hhit.
  induction fuel as [|fuel IH]; intros k Hk Hfuel; [lia|].
  rewrite Find_Keyword_loop_step.
  replace (1 + k <=? mx) with true by lia.
  destruct (decide (k = k0)) as [->|Hne].
  - unfold hit_at in Hhit. by rewrite Hhit.
  - pose proof (Hmiss k ltac:(lia)) as Hk_miss. unfold hit_at in Hk_miss.
    rewrite Hk_miss, position_next by lia.
    small. replace (1 + k + 1) with (1 + (k + 1)) by lia.
    apply IH; lia.
Qed.

(** With no success in the range searched, the loop gives up. *)
Lemma Find_Keyword_loop_gives_up :
  mx + 1 < 2 ^ 32 ->
  (forall j, 0 <= j < mx -> hit j = Ret (false, rb)) ->
  forall fuel k,
    0 <= k <= mx -> (Z.to_nat (mx - k) < fuel)%nat ->
    run (Find_Keyword_loop fuel kw L mx tr (1 + k) (position rb k)) rb
    = Ret (NotFound, rb).
Proof.
  destruct Hrb as [Hh Hm]. intros Hlt Hmiss.
  induction fuel as [|fuel IH]; intros k Hk Hfuel; [lia|].
  rewrite Find_Keyword_loop_step.
  destruct (decide (k = mx)) as [->|Hne].
  - by replace (1 + mx <=? mx) with false by lia.
  - replace (1 + k <=? mx) with true by lia.
    pose proof (Hmiss k ltac:(lia)) as Hk_miss. unfold hit_at in Hk_miss.
    rewrite Hk_miss, position_next by lia.
    small. replace (1 + k + 1) with (1 + (k + 1)) by lia.
    apply IH; lia.
Qed.
End scan.

Lemma take_drop_split {A} (l : list A) (j n : nat) :
  l = take j l ++ take n (drop j l) ++ drop (j + n) l.
Proof.
  rewrite <- (take_drop j l) at 1. f_equal.
  rewrite <- (take_drop n (drop j l)) at 1. f_equal.
  rewrite drop_drop. done.
Qed.

(** The search returns one more than the number of stored bytes before
    the first place where the keyword's bytes stand. *)
Lemma find_keyword_first_occurrence rb K L pre post fuel :
  wf rb -> Forall is_byte (array_addr rb) ->
  1 <= L <= 4 -> 0 <= K < 256 ^ L ->
  contents rb = pre ++ be_bytes K L ++ post ->
  (forall pre' post', contents rb = pre' ++ be_bytes K L ++ post' ->
                      (length pre <= length pre')%nat) ->
  (length pre < fuel)%nat ->
  run (Find_Keyword_scan fuel K L) rb = Ret (Found (Z.of_nat (length pre) + 1), rb).
Proof.
  intros Hwf Hbyte HL HK Hocc Hfirst Hfuel.
  pose proof Hwf as (Hsz & Hmax & Hh & Ht & Hl & Hth).
  pose proof (contents_length rb Hwf) as Hclen.
  pose proof (be_bytes_length K L ltac:(lia)) as Hblen.
  assert (Z.of_nat (length pre) + L <= lenght rb) as Hlen.
  { rewrite Hocc, !length_app in Hclen. lia. }
  assert (256 ^ L <= 2 ^ 32) as Hpow.
  { change 256 with (2 ^ 8). rewrite <- Z.pow_mul_r by lia.
    apply Z.pow_le_mono_r; lia. }
  assert (valid_head rb) as Hvalid by (split; lia).
  unfold Find_Keyword_scan. small.
  rewrite run_bind, run_get_lenght, run_bind. small.
  unfold shift_right32.
  replace ((0 <=? (L - 1) * 8) && ((L - 1) * 8 <? 32)) with true by lia.
  rewrite run_ret, run_bind, run_get_head.
  rewrite (Z.add_comm (Z.of_nat (length pre)) 1).
  enough (run (Find_Keyword_loop fuel K L (lenght rb - L + 1)
                 (uint8_t (Z.shiftr K ((L - 1) * 8))) (1 + 0) (position rb 0)) rb
          = Ret (Found (1 + Z.of_nat (length pre)), rb)) as Hloop
    by (rewrite position_0 in Hloop by done; exact Hloop).
  apply Find_Keyword_loop_finds; try done; try lia.
  - (* nothing matches before [pre] ends *)
    intros j Hj. unfold hit_at.
    destruct (take (Z.to_nat L) (drop (Z.to_nat j) (contents rb)))
      as [|b bytes] eqn:Hbytes.
    { apply (f_equal length) in Hbytes.
      rewrite length_take, length_drop, Hclen in Hbytes. cbn in Hbytes. lia. }
    rewrite (keyword_at_contents rb K L _ j b bytes) by (done || lia).
    do 2 f_equal. apply andb_false_iff. right. apply Z.eqb_neq. intros Hv.
    assert (Z.of_nat (length (b :: bytes)) = L) as Hlen'.
    { rewrite <- Hbytes, length_take, length_drop, Hclen. lia. }
    assert (Forall is_byte (b :: bytes)) as Hok.
    { rewrite <- Hbytes. by apply Forall_take, Forall_drop, contents_is_byte. }
    pose proof (be_bytes_be_value (b :: bytes) L HL Hlen' Hok) as Hrt.
    rewrite Hv, <- Hbytes in Hrt.
    pose proof (take_drop_split (contents rb) (Z.to_nat j) (Z.to_nat L)) as Hsplit.
    rewrite <- Hrt in Hsplit.
    apply Hfirst in Hsplit. rewrite length_take, Hclen in Hsplit. lia.
  - (* the keyword stands right after [pre] *)
    unfold hit_at.
    assert (take (Z.to_nat L) (drop (Z.to_nat (Z.of_nat (length pre))) (contents rb))
            = be_bytes K L) as Hbytes.
    { rewrite Hocc, Nat2Z.id, drop_app_length, take_app_length'; [done|lia]. }
    pose proof (be_bytes_head K L ltac:(lia)) as Hhd.
    destruct (be_bytes K L) as [|b bytes] eqn:Hbe; [discriminate|].
    injection Hhd as ->.
    rewrite (keyword_at_contents rb K L _ _ _ bytes Hwf Hbyte HL) by (done || lia).
    rewrite Z.eqb_refl, <- Hbe, be_value_be_bytes, Z.eqb_refl by done.
    reflexivity.
Qed.

(** ** The search returns *)

(** On a well-formed ring of bytes that holds at least [L - 1] bytes,
    the search comes back once it has fuel for every start it may try. *)
Lemma Find_Keyword_loop_returns rb kw L mx tr :
  valid_head rb -> 0 <= mx -> mx + 1 < 2 ^ 32 ->
  (forall j, 0 <= j < mx -> exists b, hit_at rb kw L tr j = Ret (b, rb)) ->
  forall fuel k,
    0 <= k <= mx -> (Z.to_nat (mx - k) < fuel)%nat ->
    exists r, run (Find_Keyword_loop fuel kw L mx tr (1 + k) (position rb k)) rb
              = Ret (r, rb).
Proof.
  intros [Hh Hm] Hmx Hlt Hdef.
  induction fuel as [|fuel IH]; intros k Hk Hfuel; [lia|].
  rewrite Find_Keyword_loop_step.
  destruct (decide (k = mx)) as [->|Hne].
  - replace (1 + mx <=? mx) with false by lia. eauto.
  - replace (1 + k <=? mx) with true by lia.
    destruct (Hdef k ltac:(lia)) as [b Hb]. unfold hit_at in Hb. rewrite Hb.
    destruct b; [eauto|].
    rewrite position_next by lia. small.
    replace (1 + k + 1) with (1 + (k + 1)) by lia.
    apply IH; lia.
Qed.

Lemma Find_Keyword_returns rb K L fuel :
  wf rb -> Forall is_byte (array_addr rb) ->
  1 <= L <= 4 -> 0 <= K < 2 ^ 32 -> L - 1 <= lenght rb < 2 ^ 32 - 1 ->
  (Z.to_nat (lenght rb - L + 1) < fuel)%nat ->
  exists r, run (Ring_Buffer_Find_Keyword fuel K L) rb = Ret (r, rb).
Proof.
  intros Hwf Hbyte HL HK Hlen Hfuel.
  pose proof Hwf as (Hsz & Hmax & Hh & Ht & Hl & Hth).
  pose proof (contents_length rb Hwf) as Hclen.
  assert (valid_head rb) as Hvalid by (split; lia).
  unfold Ring_Buffer_Find_Keyword, Find_Keyword_scan. small.
  rewrite !run_bind, run_get_lenght, run_bind. small.
  unfold shift_right32.
  replace ((0 <=? (L - 1) * 8) && ((L - 1) * 8 <? 32)) with true by lia.
  rewrite run_ret, run_bind, run_get_head.
  assert (exists r, run (Find_Keyword_loop fuel K L (lenght rb - L + 1)
                           (uint8_t (Z.shiftr K ((L - 1) * 8))) (1 + 0)
                           (position rb 0)) rb = Ret (r, rb)) as [r Hr].
  { apply Find_Keyword_loop_returns; try done; try lia.
    intros j Hj. unfold hit_at.
    destruct (take (Z.to_nat L) (drop (Z.to_nat j) (contents rb)))
      as [|b bytes] eqn:Hbytes.
    { apply (f_equal length) in Hbytes.
      rewrite length_take, length_drop, Hclen in Hbytes. cbn in Hbytes. lia. }
    rewrite (keyword_at_contents rb K L _ j b bytes) by (done || lia). eauto. }
  rewrite position_0 in Hr by done. change (1 + 0) with 1 in Hr.
  replace (uint32_t (uint32_t (lenght rb - L) + 1)) with (lenght rb - L + 1).
  2:{ unfold uint32_t. rewrite Zplus_mod_idemp_l. symmetry. apply Z.mod_small. lia. }
  rewrite Hr. rewrite run_ret. eauto.
Qed.

(** ** The single-byte operations *)

(** With two slots or more free, a byte is appended to the stored ones. *)
Lemma Write_Byte_spec rb rb_data :
  wf rb -> lenght rb < max_length rb - 1 ->
  wp (Ring_Buffer_Write_Byte rb_data)
     (fun r rb' =>
        r = RING_BUFFER_SUCCESS /\
        wf rb' /\
        contents rb' = contents rb ++ [uint8_t rb_data] /\
        lenght rb' = lenght rb + 1 /\
        head rb' = head rb /\
        max_length rb' = max_length rb) rb.
Proof.
  intros (Hsz & Hmax & Hh & Ht & Hl & Hth) Hroom.
  destruct rb as [h t l a m]; cbn in *.
  unfold Ring_Buffer_Write_Byte.
  do 4 wp_step. cbn. small.
  replace (l =? m - 1) with false by lia.
  do 3 wp_step. apply wp_store; cbn; [lia|].
  do 12 wp_step. cbn. small.
  destruct (t + 1 >? m - 1) eqn:E; repeat wp_step; cbn.
  all: unfold contents, wf; cbn; rewrite !length_insert.
  all: split_and!; try lia; try done.
  all: replace (Z.to_nat (l + 1)) with (Z.to_nat l + length [uint8_t rb_data])%nat
         by (cbn; lia).
  all: apply (window_inserts a (Z.to_nat h) (Z.to_nat l) (Z.to_nat t) [uint8_t rb_data]);
         cbn; lia.
Qed.

(** With something stored, the oldest byte is returned and removed. *)
Lemma Read_Byte_spec rb :
  wf rb -> 0 < lenght rb ->
  wp Ring_Buffer_Read_Byte
     (fun r rb' =>
        r = contents rb !! 0%nat /\ is_Some r /\
        wf rb' /\
        contents rb' = drop 1 (contents rb) /\
        lenght rb' = lenght rb - 1 /\
        array_addr rb' = array_addr rb /\
        max_length rb' = max_length rb) rb.
Proof.
  intros Hwf Hsome.
  pose proof (lookup_contents rb 0 Hwf ltac:(lia)) as Hfirst.
  pose proof Hwf as (Hsz & Hmax & Hh & Ht & Hl & Hth).
  assert (valid_head rb) as Hvalid by (split; lia).
  rewrite position_0 in Hfirst by done. change (Z.to_nat 0) with 0%nat in Hfirst.
  destruct (lookup_lt_is_Some_2 (array_addr rb) (Z.to_nat (head rb)) ltac:(lia))
    as [b Hb].
  rewrite Hb in Hfirst. clear Hvalid.
  destruct rb as [h t l a m]; cbn in *.
  unfold Ring_Buffer_Read_Byte.
  do 2 wp_step. cbn.
  replace (l =? 0) with false by lia. cbn.
  do 3 wp_step. apply (wp_load _ b); cbn; [lia|done|].
  do 12 wp_step. cbn. small.
  destruct (h + 1 >? m - 1) eqn:E; repeat wp_step; cbn.
  all: rewrite Hfirst.
  all: unfold contents, wf in *; cbn in *.
  all: rewrite (window_drop a (Z.to_nat h) (Z.to_nat l) 1) by lia.
  all: case_decide; try lia.
  all: split_and!; try lia; try done; try (f_equal; lia).
Qed.

(** [Ring_Buffer_Write_Byte] alone keeps one slot of the array free. *)
Lemma Write_Byte_keeps_one_slot_free rb rb_data :
  wf rb -> lenght rb <= max_length rb - 1 ->
  exists st rb',
    run (Ring_Buffer_Write_Byte rb_data) rb = Ret (st, rb') /\
    wf rb' /\ lenght rb' <= max_length rb' - 1.
Proof.
  intros Hwf Hinv.
  destruct (decide (lenght rb = max_length rb - 1)) as [Hfull|Hroom].
  - exists RING_BUFFER_ERROR, rb. split_and!; try done.
    destruct rb as [h t l a m]; cbn in *.
    destruct Hwf as (Hsz & Hmax & _). cbn in *.
    unfold run, Ring_Buffer_Write_Byte. cbn. small.
    by replace (l =? m - 1) with true by lia.
  - destruct (wp_elim _ _ _ (Write_Byte_spec rb rb_data Hwf ltac:(lia)))
      as (st & rb' & Hrun & -> & Hwf' & _ & Hl' & _ & Hm').
    exists RING_BUFFER_SUCCESS, rb'. split_and!; try done. lia.
Qed.

(** * The claims *)

(** C9: [Ring_Buffer_Find_Keyword], and the private
    [Ring_Buffer_Get_Word] it calls, never modify the buffer: whatever
    the keyword and its length, and whether the search finds it or not,
    the handle that comes back (head, tail, stored length, capacity and
    every byte of the array) is the one that went in. *)
Theorem find_keyword_is_read_only :
  forall rb rb',
    (forall fuel keyword keyword_lenght r,
        run (Ring_Buffer_Find_Keyword fuel keyword keyword_lenght) rb = Ret (r, rb') ->
        rb' = rb) /\
    (forall find_head read_lenght w,
        run (Ring_Buffer_Get_Word find_head read_lenght) rb = Ret (w, rb') ->
        rb' = rb).
Proof.
  intros rb rb'. split.
  - intros fuel keyword keyword_lenght r H.
    exact (read_only_Find_Keyword fuel keyword keyword_lenght rb r rb' H).
  - intros find_head read_lenght w H.
    exact (read_only_Get_Word find_head read_lenght rb w rb' H).
Qed.

Lemma find_keyword_is_read_only_witness :
  (run (Ring_Buffer_Find_Keyword 32 SEPARATE_SIGN SEPARATE_SIGN_SIZE) two_paragraphs
     = Ret (14, two_paragraphs) /\ two_paragraphs = two_paragraphs) /\
  (run (Ring_Buffer_Find_Keyword 32 0x12345678 4) two_paragraphs
     = Ret (RING_BUFFER_ERROR, two_paragraphs) /\ two_paragraphs = two_paragraphs) /\
  (run (Ring_Buffer_Get_Word 7 4) wrapped = Ret (SEPARATE_SIGN, wrapped) /\
   wrapped = wrapped).
Proof.
  split; [|split].
  - split; [vm_compute; reflexivity|].
    apply (proj1 (find_keyword_is_read_only two_paragraphs two_paragraphs)
                 32%nat SEPARATE_SIGN SEPARATE_SIGN_SIZE 14).
    vm_compute; reflexivity.
  - split; [vm_compute; reflexivity|].
    apply (proj1 (find_keyword_is_read_only two_paragraphs two_paragraphs)
                 32%nat 0x12345678 4 RING_BUFFER_ERROR).
    vm_compute; reflexivity.
  - split; [vm_compute; reflexivity|].
    apply (proj2 (find_keyword_is_read_only wrapped wrapped) 7 4 SEPARATE_SIGN).
    vm_compute; reflexivity.
Defined.

(** C10: on a handle whose [head] is an index of the array, a distance
    reported by the search is at least 1 (and fits 32 bits), so what
    [Ring_Buffer_Find_Keyword] returns for a match is never the
    [RING_BUFFER_ERROR] (0) it returns for no match. *)
Theorem find_keyword_distance_positive :
  forall fuel keyword keyword_lenght rb distance rb',
    valid_head rb ->
    run (Find_Keyword_scan fuel keyword keyword_lenght) rb = Ret (Found distance, rb') ->
    run (Ring_Buffer_Find_Keyword fuel keyword keyword_lenght) rb = Ret (distance, rb') /\
    1 <= distance < 2 ^ 32 /\
    distance <> RING_BUFFER_ERROR.
Proof.
  intros fuel keyword keyword_lenght rb distance rb' Hvalid Hscan.
  split.
  { unfold Ring_Buffer_Find_Keyword. rewrite run_bind, Hscan. reflexivity. }
  enough (1 <= distance < 2 ^ 32) by (unfold RING_BUFFER_ERROR; lia).
  unfold Find_Keyword_scan in Hscan.
  apply bind_inv in Hscan as (len & rb1 & Hlen & Hscan).
  apply read_only_get_lenght in Hlen as ->.
  apply bind_inv in Hscan as (t & rb1 & Ht & Hscan).
  apply read_only_shift_right32 in Ht as ->.
  apply bind_inv in Hscan as (h & rb1 & Hh & Hscan).
  rewrite run_get_head in Hh. injection Hh as <- <-.
  rewrite <- (position_0 rb Hvalid) in Hscan.
  change 1 with (uint32_t (1 + 0)) in Hscan.
  apply Find_Keyword_loop_found in Hscan as (k0 & Hk0 & -> & Hhit & Hfirst);
    [|done|lia|intros j Hj; lia].
  apply first_hit_in_first_lap in Hhit; [|done|lia|done].
  destruct Hvalid as [Hh Hm]. small. lia.
Qed.

Lemma find_keyword_distance_positive_witness :
  valid_head wrapped /\
  run (Find_Keyword_scan 8 SEPARATE_SIGN SEPARATE_SIGN_SIZE) wrapped
    = Ret (Found 3, wrapped) /\
  run (Ring_Buffer_Find_Keyword 8 SEPARATE_SIGN SEPARATE_SIGN_SIZE) wrapped
    = Ret (3, wrapped) /\
  1 <= 3 < 2 ^ 32 /\ 3 <> RING_BUFFER_ERROR.
Proof.
  assert (valid_head wrapped) as Hvalid.
  { unfold valid_head. change (head wrapped) with 5.
    change (max_length wrapped) with 8. lia. }
  assert (run (Find_Keyword_scan 8 SEPARATE_SIGN SEPARATE_SIGN_SIZE) wrapped
          = Ret (Found 3, wrapped)) as Hscan by (vm_compute; reflexivity).
  split; [exact Hvalid|]. split; [exact Hscan|].
  exact (find_keyword_distance_positive 8 SEPARATE_SIGN SEPARATE_SIGN_SIZE
           wrapped 3 wrapped Hvalid Hscan).
Defined.

(** C7: a call that reports failure leaves the handle and the array
    exactly as they were, for each of write_byte, read_byte (which
    "fails" by finding nothing to read), write_block, read_block,
    delete, insert_keyword and find_keyword: the checks that can fail
    come before any assignment. *)
Theorem failed_call_changes_nothing :
  forall rb rb',
    (forall rb_data,
        run (Ring_Buffer_Write_Byte rb_data) rb = Ret (RING_BUFFER_ERROR, rb') ->
        rb' = rb) /\
    (run Ring_Buffer_Read_Byte rb = Ret (None, rb') -> rb' = rb) /\
    (forall input_addr write_lenght,
        run (Ring_Buffer_Write_String input_addr write_lenght) rb
          = Ret (RING_BUFFER_ERROR, rb') ->
        rb' = rb) /\
    (forall read_lenght out,
        run (Ring_Buffer_Read_String read_lenght) rb
          = Ret ((RING_BUFFER_ERROR, out), rb') ->
        rb' = rb /\ out = []) /\
    (forall lenght_arg,
        run (Ring_Buffer_Delete lenght_arg) rb = Ret (RING_BUFFER_ERROR, rb') ->
        rb' = rb) /\
    (forall host keyword keyword_lenght,
        run (Ring_Buffer_Insert_Keyword host keyword keyword_lenght) rb
          = Ret (RING_BUFFER_ERROR, rb') ->
        rb' = rb) /\
    (forall fuel keyword keyword_lenght,
        run (Ring_Buffer_Find_Keyword fuel keyword keyword_lenght) rb
          = Ret (RING_BUFFER_ERROR, rb') ->
        rb' = rb).
Proof.
  intros rb rb'. split_and!.
  - intros rb_data. apply Write_Byte_error.
  - apply Read_Byte_error.
  - intros input_addr write_lenght. apply Write_String_error.
  - intros read_lenght out. apply Read_String_error.
  - intros lenght_arg. apply Delete_error.
  - intros host keyword keyword_lenght. apply Insert_Keyword_error.
  - intros fuel keyword keyword_lenght. apply read_only_Find_Keyword.
Qed.

Lemma failed_call_changes_nothing_witness :
  (run (Ring_Buffer_Write_Byte 9) three_of_four
     = Ret (RING_BUFFER_ERROR, three_of_four) /\ three_of_four = three_of_four) /\
  (run Ring_Buffer_Read_Byte fresh4 = Ret (None, fresh4) /\ fresh4 = fresh4) /\
  (run (Ring_Buffer_Write_String [4; 5] 2) three_of_four
     = Ret (RING_BUFFER_ERROR, three_of_four) /\ three_of_four = three_of_four) /\
  (run (Ring_Buffer_Read_String 4) three_of_four
     = Ret ((RING_BUFFER_ERROR, []), three_of_four) /\
   three_of_four = three_of_four /\ @nil Z = []) /\
  (run (Ring_Buffer_Delete 4) three_of_four
     = Ret (RING_BUFFER_ERROR, three_of_four) /\ three_of_four = three_of_four) /\
  (run (Ring_Buffer_Insert_Keyword LittleEndian SEPARATE_SIGN 4) three_of_four
     = Ret (RING_BUFFER_ERROR, three_of_four) /\ three_of_four = three_of_four) /\
  (run (Ring_Buffer_Find_Keyword 8 SEPARATE_SIGN 4) three_of_four
     = Ret (RING_BUFFER_ERROR, three_of_four) /\ three_of_four = three_of_four).
Proof.
  destruct (failed_call_changes_nothing three_of_four three_of_four)
    as (Hwb & _ & Hws & Hrs & Hd & Hi & Hf).
  destruct (failed_call_changes_nothing fresh4 fresh4) as (_ & Hrb & _).
  repeat apply conj.
  - vm_compute; reflexivity.
  - apply (Hwb 9). vm_compute; reflexivity.
  - vm_compute; reflexivity.
  - apply Hrb. vm_compute; reflexivity.
  - vm_compute; reflexivity.
  - apply (Hws [4; 5] 2). vm_compute; reflexivity.
  - vm_compute; reflexivity.
  - apply (Hrs 4 []). vm_compute; reflexivity.
  - apply (Hrs 4 []). vm_compute; reflexivity.
  - vm_compute; reflexivity.
  - apply (Hd 4). vm_compute; reflexivity.
  - vm_compute; reflexivity.
  - apply (Hi LittleEndian SEPARATE_SIGN 4). vm_compute; reflexivity.
  - vm_compute; reflexivity.
  - apply (Hf 8%nat SEPARATE_SIGN 4). vm_compute; reflexivity.
Defined.

(** C5 (amended): on a well-formed handle with room for the block,
    write_block of [input] followed by read_block of everything stored
    returns the bytes that were already there and then exactly the bytes
    of [input], in order, wherever head and tail stand and whether or
    not either copy is split at the end of the array; so on an empty
    buffer reading the block's length back returns exactly the block. *)
Theorem write_then_read_returns_block :
  forall rb input,
    wf rb ->
    lenght rb + Z.of_nat (length input) <= max_length rb ->
    exists rb1 rb2,
      run (Ring_Buffer_Write_String input (Z.of_nat (length input))) rb
        = Ret (RING_BUFFER_SUCCESS, rb1) /\
      run (Ring_Buffer_Read_String (lenght rb + Z.of_nat (length input))) rb1
        = Ret ((RING_BUFFER_SUCCESS, contents rb ++ input), rb2) /\
      lenght rb2 = 0 /\
      (lenght rb = 0 ->
       run (Ring_Buffer_Read_String (Z.of_nat (length input))) rb1
         = Ret ((RING_BUFFER_SUCCESS, input), rb2)).
Proof.
  intros rb input Hwf Hfit.
  pose proof Hwf as (Hsz & Hmax & Hh & Ht & Hl & Hth).
  destruct (wp_elim _ _ _ (Write_String_spec rb input (Z.of_nat (length input))
                             Hwf ltac:(lia) Hfit ltac:(lia)))
    as (r & rb1 & Hwrite & -> & Hwf1 & Hc1 & Hl1 & Hh1 & Hm1).
  rewrite Nat2Z.id, firstn_all in Hc1.
  destruct (wp_elim _ _ _ (Read_String_spec rb1 (lenght rb + Z.of_nat (length input))
                             Hwf1 ltac:(lia)))
    as (r & rb2 & Hread & -> & Hwf2 & Hc2 & Hl2 & Ha2 & Hm2).
  rewrite take_ge in Hread by (rewrite contents_length by done; lia).
  rewrite Hc1 in Hread.
  exists rb1, rb2. split_and!; try done; try lia.
  intros Hempty. rewrite Hempty, Z.add_0_l in Hread.
  assert (contents rb = []) as Hnil.
  { apply length_zero_iff_nil. rewrite contents_length by done. lia. }
  rewrite Hnil in Hread. exact Hread.
Qed.

Lemma write_then_read_returns_block_witness :
  wf wrapped /\
  lenght wrapped + Z.of_nat (length [7; 8]) <= max_length wrapped /\
  exists rb1 rb2,
    run (Ring_Buffer_Write_String [7; 8] (Z.of_nat (length [7; 8]))) wrapped
      = Ret (RING_BUFFER_SUCCESS, rb1) /\
    run (Ring_Buffer_Read_String (lenght wrapped + Z.of_nat (length [7; 8]))) rb1
      = Ret ((RING_BUFFER_SUCCESS, contents wrapped ++ [7; 8]), rb2) /\
    lenght rb2 = 0 /\
    (lenght wrapped = 0 ->
     run (Ring_Buffer_Read_String (Z.of_nat (length [7; 8]))) rb1
       = Ret ((RING_BUFFER_SUCCESS, [7; 8]), rb2)).
Proof.
  assert (wf wrapped) as Hwf.
  { unfold wf. change (max_length wrapped) with 8. change (head wrapped) with 5.
    change (tail wrapped) with 3. change (lenght wrapped) with 6.
    change (Z.of_nat (length (array_addr wrapped))) with 8. lia. }
  assert (lenght wrapped + Z.of_nat (length [7; 8]) <= max_length wrapped) as Hfit.
  { change (max_length wrapped) with 8. change (lenght wrapped) with 6.
    change (Z.of_nat (length [7; 8])) with 2. lia. }
  split; [exact Hwf|]. split; [exact Hfit|].
  exact (write_then_read_returns_block wrapped [7; 8] Hwf Hfit).
Defined.

(** C5 as stated fails: with one byte already stored, writing the block
    [[2]] and reading one byte back returns the older byte [1]. *)
Lemma write_then_read_returns_older_bytes :
  wf one_of_four /\
  lenght one_of_four + 1 <= max_length one_of_four - 1 /\
  result (Ring_Buffer_Write_String [2] 1 ;; Ring_Buffer_Read_String 1) one_of_four
    = Some (RING_BUFFER_SUCCESS, [1]) /\
  [1] <> [2].
Proof.
  split_and!.
  - unfold wf. change (max_length one_of_four) with 4.
    change (head one_of_four) with 0. change (tail one_of_four) with 1.
    change (lenght one_of_four) with 1.
    change (Z.of_nat (length (array_addr one_of_four))) with 4. lia.
  - change (max_length one_of_four) with 4. change (lenght one_of_four) with 1. lia.
  - vm_compute. reflexivity.
  - discriminate.
Qed.

(** C6 (amended): for every length [n] that delete's 8-bit parameter
    can carry (0 to 255) and every well-formed handle whose capacity
    leaves [head + n] within 32 bits, [Ring_Buffer_Delete n] returns the
    status and leaves exactly the handle (head, tail, stored length,
    array, capacity, hence every later read) that
    [Ring_Buffer_Read_String] of [n] bytes does, and both succeed
    exactly when [n] is at most the stored length. *)
Theorem delete_is_read_and_discard :
  forall rb n,
  wf rb -> 0 <= n < 256 -> max_length rb + 255 < 2 ^ 32 ->
  exists st out rb',
    run (Ring_Buffer_Read_String n) rb = Ret ((st, out), rb') /\
    run (Ring_Buffer_Delete n) rb = Ret (st, rb') /\
    (st = RING_BUFFER_SUCCESS <-> n <= lenght rb).
Proof.
  intros rb n Hwf Hn Hcap.
  pose proof Hwf as (Hsz & Hmax & Hh & Ht & Hl & Hth).
  destruct (decide (n <= lenght rb)) as [Hle|Hgt].
  - destruct (wp_elim _ _ _ (Read_String_state rb n Hwf ltac:(lia)))
      as ([st out] & rb1 & Hread & Hst & ->).
    destruct (wp_elim _ _ _ (Delete_spec rb n Hwf Hn Hle Hcap))
      as (st' & rb2 & Hdel & -> & ->).
    cbn in Hst. subst st.
    eexists _, _, _. split_and!; [exact Hread | exact Hdel | done].
  - eexists _, _, _. split_and!.
    + apply Read_String_too_long; lia.
    + apply Delete_too_long; lia.
    + unfold RING_BUFFER_ERROR, RING_BUFFER_SUCCESS. lia.
Qed.

Lemma delete_is_read_and_discard_witness :
  wf wrapped /\ 0 <= 4 < 256 /\ max_length wrapped + 255 < 2 ^ 32 /\
  exists st out rb',
    run (Ring_Buffer_Read_String 4) wrapped = Ret ((st, out), rb') /\
    run (Ring_Buffer_Delete 4) wrapped = Ret (st, rb') /\
    (st = RING_BUFFER_SUCCESS <-> 4 <= lenght wrapped).
Proof.
  assert (wf wrapped) as Hwf.
  { unfold wf. change (max_length wrapped) with 8. change (head wrapped) with 5.
    change (tail wrapped) with 3. change (lenght wrapped) with 6.
    change (Z.of_nat (length (array_addr wrapped))) with 8. lia. }
  assert (0 <= 4 < 256) as Hn by lia.
  assert (max_length wrapped + 255 < 2 ^ 32) as Hcap
    by (change (max_length wrapped) with 8; lia).
  split; [exact Hwf|]. split; [exact Hn|]. split; [exact Hcap|].
  exact (delete_is_read_and_discard wrapped 4 Hwf Hn Hcap).
Defined.

(** C6 as stated fails: a length of 300 reaches [Ring_Buffer_Delete] as
    the 8-bit value 44, so on a buffer holding 50 bytes delete succeeds
    and drops 44 bytes while reading 300 bytes fails and drops none. *)
Lemma delete_300_is_not_read_300 :
  lenght fifty_of_64 = 50 /\
  run (Ring_Buffer_Delete 300) fifty_of_64
    = Ret (RING_BUFFER_SUCCESS,
           mk_ring_buffer 44 50 6 (array_addr fifty_of_64) 64) /\
  run (Ring_Buffer_Read_String 300) fifty_of_64
    = Ret ((RING_BUFFER_ERROR, []), fifty_of_64) /\
  ~ 300 <= lenght fifty_of_64.
Proof.
  split_and!.
  - reflexivity.
  - vm_compute. reflexivity.
  - vm_compute. reflexivity.
  - change (lenght fifty_of_64) with 50. lia.
Qed.

(** C2 (amended): on a well-formed ring of bytes whose stored bytes
    contain exactly one occurrence of the big-endian bytes of a keyword
    [K] of length [L] (1 to 4, with [K] below [256 ^ L]), the search
    succeeds and returns the 1-based position of the keyword's first
    byte counted from head: the number of stored bytes before the
    keyword, plus one. In the test program, after the 13-byte paragraph
    and the 4-byte separator, it returns 14. *)
Theorem find_keyword_returns_keyword_position :
  (forall rb K L pre post fuel,
      wf rb -> Forall is_byte (array_addr rb) ->
      1 <= L <= 4 -> 0 <= K < 256 ^ L ->
      contents rb = pre ++ be_bytes K L ++ post ->
      (forall pre' post', contents rb = pre' ++ be_bytes K L ++ post' -> pre' = pre) ->
      (length pre < fuel)%nat ->
      run (Ring_Buffer_Find_Keyword fuel K L) rb
        = Ret (Z.of_nat (length pre) + 1, rb)) /\
  run (Ring_Buffer_Find_Keyword 32 SEPARATE_SIGN SEPARATE_SIGN_SIZE) one_paragraph
    = Ret (14, one_paragraph).
Proof.
  split; [|vm_compute; reflexivity].
  intros rb K L pre post fuel Hwf Hbyte HL HK Hocc Honly Hfuel.
  unfold Ring_Buffer_Find_Keyword.
  rewrite run_bind, (find_keyword_first_occurrence rb K L pre post); try done.
  intros pre' post' Hocc'. by rewrite (Honly pre' post' Hocc').
Qed.

Lemma find_keyword_returns_keyword_position_witness :
  wf wrapped /\
  Forall is_byte (array_addr wrapped) /\
  contents wrapped = [1; 2] ++ be_bytes SEPARATE_SIGN 4 ++ [] /\
  run (Ring_Buffer_Find_Keyword 8 SEPARATE_SIGN 4) wrapped
    = Ret (Z.of_nat (length [1; 2]) + 1, wrapped).
Proof.
  assert (wf wrapped) as Hwf.
  { unfold wf. change (max_length wrapped) with 8. change (head wrapped) with 5.
    change (tail wrapped) with 3. change (lenght wrapped) with 6.
    change (Z.of_nat (length (array_addr wrapped))) with 8. lia. }
  assert (Forall is_byte (array_addr wrapped)) as Hbyte.
  { change (array_addr wrapped) with [251; 34; 170; 9; 9; 1; 2; 204].
    repeat constructor; unfold is_byte; lia. }
  assert (contents wrapped = [1; 2] ++ be_bytes SEPARATE_SIGN 4 ++ []) as Hocc
    by (vm_compute; reflexivity).
  split; [exact Hwf|]. split; [exact Hbyte|]. split; [exact Hocc|].
  apply (proj1 find_keyword_returns_keyword_position wrapped SEPARATE_SIGN 4
           [1; 2] [] 8%nat Hwf Hbyte).
  - lia.
  - change (256 ^ 4) with 4294967296. unfold SEPARATE_SIGN. lia.
  - exact Hocc.
  - change (contents wrapped) with [1; 2; 204; 251; 34; 170].
    change (be_bytes SEPARATE_SIGN 4) with [204; 251; 34; 170].
    intros pre' post' H.
    destruct pre' as [|a [|b [|c pre']]]; cbn in H.
    + discriminate H.
    + discriminate H.
    + injection H as <- <- _. reflexivity.
    + apply (f_equal length) in H. cbn in H. rewrite length_app in H.
      cbn in H. lia.
  - cbn. lia.
Defined.

(** C2 as stated fails: in the test program, after the 13-byte
    paragraph and the 4-byte separator, the search returns 14 (the
    paragraph's length plus one), not 13 + 4 = 17; it still does after
    the second paragraph and separator. *)
Lemma find_keyword_scenario_returns_14 :
  contents one_paragraph = take 13 str_ABCDEFGHIJK ++ be_bytes SEPARATE_SIGN 4 /\
  run (Ring_Buffer_Find_Keyword 32 SEPARATE_SIGN SEPARATE_SIGN_SIZE) one_paragraph
    = Ret (14, one_paragraph) /\
  run (Ring_Buffer_Find_Keyword 32 SEPARATE_SIGN SEPARATE_SIGN_SIZE) two_paragraphs
    = Ret (14, two_paragraphs) /\
  14 <> 13 + 4.
Proof.
  split_and!; [vm_compute; reflexivity.. | lia].
Qed.

Lemma Write_String_error_inv rb input n rb' :
  run (Ring_Buffer_Write_String input n) rb = Ret (RING_BUFFER_ERROR, rb') ->
  uint32_t (lenght rb + uint32_t n) > max_length rb.
Proof.
  destruct rb as [h t l a m]. unfold run, Ring_Buffer_Write_String. cbn.
  destruct (uint32_t (l + uint32_t n) >? m) eqn:E; [intros _; lia|]. cbn.
  destruct (uint32_t (m - t) <? uint32_t n); intros H; absurd_status H.
Qed.

Lemma Insert_Keyword_error_inv host rb keyword n rb' :
  run (Ring_Buffer_Insert_Keyword host keyword n) rb = Ret (RING_BUFFER_ERROR, rb') ->
  uint32_t (lenght rb + uint8_t n) > max_length rb.
Proof.
  pose proof (uint8_range n) as Hn. intros H.
  rewrite <- (uint32_small (uint8_t n)) by lia. revert H.
  unfold Ring_Buffer_Insert_Keyword. destruct host.
  - apply Write_String_error_inv.
  - destruct (0 <=? uint8_t n - 1); [apply Write_String_error_inv | discriminate].
Qed.

(** Writing a block of no bytes succeeds and changes nothing. *)
Lemma Write_String_nothing rb input :
  wf rb ->
  run (Ring_Buffer_Write_String input 0) rb = Ret (RING_BUFFER_SUCCESS, rb).
Proof.
  intros (Hsz & Hmax & Hh & Ht & Hl & Hth).
  enough (wp (Ring_Buffer_Write_String input 0)
             (fun r rb' => r = RING_BUFFER_SUCCESS /\ rb' = rb) rb) as Hwp.
  { apply wp_elim in Hwp as (r & rb' & Hrun & -> & ->). exact Hrun. }
  destruct rb as [h t l a m]; cbn in *.
  unfold Ring_Buffer_Write_String. change (uint32_t 0) with 0.
  do 4 wp_step. cbn. rewrite Z.add_0_r. small.
  replace (l >? m) with false by lia.
  do 2 wp_step. cbn. small.
  replace (m - t <? 0) with false by lia. cbn.
  do 2 wp_step. apply wp_memcpy_to_array; cbn; [lia..|].
  repeat wp_step. cbn. rewrite !Z.add_0_r. small.
  replace (t =? m) with false by lia.
  repeat wp_step. cbn. done.
Qed.

(** C8 (amended): the code has no keyword-length check and no
    InvalidKeywordLength error. A keyword length of 0 is accepted:
    on a well-formed handle [Ring_Buffer_Insert_Keyword] (little-endian
    branch) returns success and leaves the buffer as it was. Whenever
    insert_keyword does fail, for any keyword length, it is the block
    write's space check that failed ([lenght + keyword_lenght >
    max_length]), and the buffer is unchanged. *)
Theorem keyword_length_is_not_checked :
  forall rb keyword,
    wf rb ->
    run (Ring_Buffer_Insert_Keyword LittleEndian keyword 0) rb
      = Ret (RING_BUFFER_SUCCESS, rb) /\
    (forall host keyword_lenght rb',
        run (Ring_Buffer_Insert_Keyword host keyword keyword_lenght) rb
          = Ret (RING_BUFFER_ERROR, rb') ->
        rb' = rb /\ uint32_t (lenght rb + uint8_t keyword_lenght) > max_length rb).
Proof.
  intros rb keyword Hwf. split.
  - unfold Ring_Buffer_Insert_Keyword. change (uint8_t 0) with 0.
    apply Write_String_nothing, Hwf.
  - intros host keyword_lenght rb' H. split.
    + exact (Insert_Keyword_error host rb keyword keyword_lenght rb' H).
    + exact (Insert_Keyword_error_inv host rb keyword keyword_lenght rb' H).
Qed.

Lemma keyword_length_is_not_checked_witness :
  wf three_of_four /\
  run (Ring_Buffer_Insert_Keyword LittleEndian SEPARATE_SIGN 0) three_of_four
    = Ret (RING_BUFFER_SUCCESS, three_of_four) /\
  run (Ring_Buffer_Insert_Keyword LittleEndian SEPARATE_SIGN 5) three_of_four
    = Ret (RING_BUFFER_ERROR, three_of_four) /\
  three_of_four = three_of_four /\
  uint32_t (lenght three_of_four + uint8_t 5) > max_length three_of_four.
Proof.
  assert (wf three_of_four) as Hwf.
  { unfold wf. change (max_length three_of_four) with 4.
    change (head three_of_four) with 0. change (tail three_of_four) with 3.
    change (lenght three_of_four) with 3.
    change (Z.of_nat (length (array_addr three_of_four))) with 4. lia. }
  destruct (keyword_length_is_not_checked three_of_four SEPARATE_SIGN Hwf)
    as [Hzero Hfail].
  assert (run (Ring_Buffer_Insert_Keyword LittleEndian SEPARATE_SIGN 5) three_of_four
          = Ret (RING_BUFFER_ERROR, three_of_four)) as Hfive
    by (vm_compute; reflexivity).
  split; [exact Hwf|]. split; [exact Hzero|]. split; [exact Hfive|].
  exact (Hfail LittleEndian 5 three_of_four Hfive).
Defined.

(** C8 as stated fails: with keyword length 0, outside [1, 4],
    insert_keyword does not fail; it returns [RING_BUFFER_SUCCESS]. *)
Lemma insert_keyword_length_0_succeeds :
  ~ 1 <= 0 <= 4 /\
  run (Ring_Buffer_Insert_Keyword LittleEndian SEPARATE_SIGN 0) fresh4
    = Ret (RING_BUFFER_SUCCESS, fresh4) /\
  RING_BUFFER_SUCCESS <> RING_BUFFER_ERROR.
Proof.
  split_and!; [lia | vm_compute; reflexivity | discriminate].
Qed.

(** [Ring_Buffer_Write_Byte] refuses to write once all but one slot
    are taken. *)
Lemma Write_Byte_full rb rb_data :
  lenght rb = uint32_t (max_length rb - 1) ->
  run (Ring_Buffer_Write_Byte rb_data) rb = Ret (RING_BUFFER_ERROR, rb).
Proof.
  intros Hfull. destruct rb as [h t l a m]; cbn in *.
  unfold run, Ring_Buffer_Write_Byte. cbn.
  by replace (l =? uint32_t (m - 1)) with true by lia.
Qed.

(** C1 (the code breaks it): [Ring_Buffer_Write_String] tests
    [lenght + write_lenght > max_length] where [Ring_Buffer_Write_Byte]
    tests [lenght == max_length - 1]. On a 4-byte ring holding 3 bytes
    (capacity - 1) a one-byte block write succeeds and the stored length
    reaches the capacity; the next [Ring_Buffer_Write_Byte] no longer
    sees a full buffer, overwrites the oldest byte and takes the stored
    length past the capacity. *)
Theorem write_string_fills_the_reserved_slot :
  lenght three_of_four = max_length three_of_four - 1 /\
  run (Ring_Buffer_Write_Byte 4) three_of_four
    = Ret (RING_BUFFER_ERROR, three_of_four) /\
  run (Ring_Buffer_Write_String [4] 1) three_of_four
    = Ret (RING_BUFFER_SUCCESS, mk_ring_buffer 0 0 4 [1; 2; 3; 4] 4) /\
  run (Ring_Buffer_Write_Byte 9) (mk_ring_buffer 0 0 4 [1; 2; 3; 4] 4)
    = Ret (RING_BUFFER_SUCCESS, mk_ring_buffer 0 1 5 [9; 2; 3; 4] 4).
Proof.
  split_and!; vm_compute; reflexivity.
Qed.

(** On a little-endian host insert_keyword appends the first
    [keyword_lenght] of the keyword's four big-endian bytes: its most
    significant bytes. *)
Lemma Insert_Keyword_little_endian rb keyword keyword_lenght :
  wf rb -> 0 <= keyword < 2 ^ 32 -> 0 <= keyword_lenght <= 4 ->
  lenght rb + keyword_lenght <= max_length rb ->
  exists rb',
    run (Ring_Buffer_Insert_Keyword LittleEndian keyword keyword_lenght) rb
      = Ret (RING_BUFFER_SUCCESS, rb') /\
    wf rb' /\
    contents rb' = contents rb ++ take (Z.to_nat keyword_lenght) (be_bytes keyword 4).
Proof.
  intros Hwf HK HL Hfit. unfold Ring_Buffer_Insert_Keyword. small.
  destruct (wp_elim _ _ _ (Write_String_spec rb (be_bytes keyword 4) keyword_lenght
                             Hwf ltac:(lia) Hfit
                             ltac:(rewrite be_bytes_length; lia)))
    as (r & rb' & Hrun & -> & Hwf' & Hc & _).
  exists rb'. split_and!; try done.
Qed.

(** C3 (the code breaks it): on a little-endian host, inserting the
    keyword [0xAA] with length 1 appends the byte [0x00], the most
    significant byte of the 32-bit value, where the claim and
    [Ring_Buffer_Find_Keyword] expect its least significant byte
    [0xAA]: the search for the keyword just inserted finds nothing. On a
    big-endian host the same call also appends [0x00], and inserting a
    4-byte keyword reads past the 4-byte scratch array. *)
Theorem insert_keyword_short_writes_high_bytes :
  be_bytes 0xAA 1 = [0xAA] /\
  run (Ring_Buffer_Insert_Keyword LittleEndian 0xAA 1) fresh4_ff
    = Ret (RING_BUFFER_SUCCESS, mk_ring_buffer 0 1 1 [0; 255; 255; 255] 4) /\
  contents (mk_ring_buffer 0 1 1 [0; 255; 255; 255] 4) = [0] /\
  run (Ring_Buffer_Find_Keyword 8 0xAA 1) (mk_ring_buffer 0 1 1 [0; 255; 255; 255] 4)
    = Ret (RING_BUFFER_ERROR, mk_ring_buffer 0 1 1 [0; 255; 255; 255] 4) /\
  run (Ring_Buffer_Insert_Keyword BigEndian 0xAA 1) fresh4_ff
    = Ret (RING_BUFFER_SUCCESS, mk_ring_buffer 0 1 1 [0; 255; 255; 255] 4) /\
  run (Ring_Buffer_Insert_Keyword BigEndian SEPARATE_SIGN 4) fresh4_ff = Undefined.
Proof.
  split_and!; vm_compute; reflexivity.
Qed.

(** With exactly one byte too few stored, the search gives up at once. *)
Lemma Find_Keyword_one_short rb K L fuel :
  1 <= L <= 4 -> 0 <= K < 2 ^ 32 -> lenght rb = L - 1 ->
  run (Ring_Buffer_Find_Keyword (S fuel) K L) rb = Ret (RING_BUFFER_ERROR, rb).
Proof.
  intros HL HK Hlen.
  unfold Ring_Buffer_Find_Keyword, Find_Keyword_scan. small.
  rewrite !run_bind, run_get_lenght, run_bind.
  unfold shift_right32.
  replace ((0 <=? (L - 1) * 8) && ((L - 1) * 8 <? 32)) with true by lia.
  rewrite run_ret, run_bind, run_get_head, Find_Keyword_loop_step.
  replace (uint32_t (uint32_t (lenght rb - L) + 1)) with 0.
  2:{ unfold uint32_t. rewrite Zplus_mod_idemp_l.
      replace (lenght rb - L + 1) with 0 by lia. reflexivity. }
  reflexivity.
Qed.

(** On an empty 4-byte ring of zero bytes the search for a 2-byte
    keyword never comes back: its range wraps to [2 ^ 32 - 1], which no
    32-bit distance exceeds. *)
Lemma Find_Keyword_loop_spins fuel :
  forall distance find_head,
    0 <= distance < 2 ^ 32 -> 0 <= find_head < 4 ->
    run (Find_Keyword_loop fuel 0xAABB 2 (2 ^ 32 - 1) 0xAA distance find_head) fresh4
    = OutOfFuel.
Proof.
  induction fuel as [|fuel IH]; intros distance find_head Hd Hp; [reflexivity|].
  rewrite Find_Keyword_loop_step.
  replace (distance <=? 2 ^ 32 - 1) with true by lia.
  assert (find_head = 0 \/ find_head = 1 \/ find_head = 2 \/ find_head = 3)
    as [-> | [-> | [-> | ->]]] by lia.
  all: match goal with
       | |- match ?h with _ => _ end = _ =>
           let v := eval vm_compute in h in change h with v
       end; cbv iota beta.
  all: match goal with
       | |- run (Find_Keyword_loop _ _ _ _ _ _ ?p) _ = _ =>
           let v := eval vm_compute in p in change p with v
       end.
  all: apply IH; [apply uint32_range | lia].
Qed.

Lemma Find_Keyword_spins fuel :
  run (Ring_Buffer_Find_Keyword fuel 0xAABB 2) fresh4 = OutOfFuel.
Proof.
  unfold Ring_Buffer_Find_Keyword. rewrite run_bind.
  enough (run (Find_Keyword_scan fuel 43707 2) fresh4 = OutOfFuel) as -> by done.
  unfold Find_Keyword_scan.
  rewrite (run_bind_Ret _ _ _ 0 fresh4) by reflexivity.
  rewrite (run_bind_Ret _ _ _ 170 fresh4) by reflexivity.
  rewrite (run_bind_Ret _ _ _ 0 fresh4) by reflexivity.
  change (uint32_t (uint32_t (0 - uint8_t 2) + 1)) with (2 ^ 32 - 1).
  change (uint8_t 170) with 170. change (uint32_t 43707) with 43707.
  change (uint8_t 2) with 2.
  apply (Find_Keyword_loop_spins fuel 1 0); lia.
Qed.

(** C4 (the code breaks it): with fewer than [keyword_lenght - 1] bytes
    stored, [lenght - keyword_lenght + 1] wraps round to a huge
    unsigned range and the search runs over bytes that are no longer
    stored. On a 4-byte ring from which [0xAA; 0xBB] were written and
    read back (stored length 0), the search for the 2-byte keyword
    [0xAABB] reports a match at distance 3. *)
Theorem find_keyword_matches_bytes_not_stored :
  lenght drained = 0 /\
  contents drained = [] /\
  run (Ring_Buffer_Find_Keyword 8 0xAABB 2) drained = Ret (3, drained) /\
  3 <> RING_BUFFER_ERROR.
Proof.
  split_and!; [vm_compute; reflexivity.. | discriminate].
Qed.

(** * Further properties of the code *)

(** ** Shared facts *)

Ltac solve_wf_concrete rb h t l m :=
  unfold wf; change (max_length rb) with m; change (head rb) with h;
  change (tail rb) with t; change (lenght rb) with l;
  change (Z.of_nat (length (array_addr rb))) with m; lia.

(** The handle reached by moving [head] on by [n] places. *)
Lemma advanced_handle rb n :
  wf rb -> 0 <= n <= lenght rb ->
  let rb' := mk_ring_buffer
               (if head rb + n <? max_length rb then head rb + n
                else head rb + n - max_length rb)
               (tail rb) (lenght rb - n) (array_addr rb) (max_length rb) in
  wf rb' /\ contents rb' = drop (Z.to_nat n) (contents rb).
Proof.
  intros Hwf Hn rb'.
  destruct (wp_elim _ _ _ (Read_String_spec rb n Hwf Hn))
    as (r & rb1 & Hrun1 & _ & Hwf1 & Hc1 & _).
  destruct (wp_elim _ _ _ (Read_String_state rb n Hwf Hn))
    as (r2 & rb2 & Hrun2 & _ & Heq).
  rewrite Hrun1 in Hrun2. injection Hrun2 as _ ->. subst rb2. split; done.
Qed.

Lemma Read_String_run rb n :
  wf rb -> 0 <= n <= lenght rb ->
  run (Ring_Buffer_Read_String n) rb
  = Ret ((RING_BUFFER_SUCCESS, take (Z.to_nat n) (contents rb)),
         mk_ring_buffer
           (if head rb + n <? max_length rb then head rb + n
            else head rb + n - max_length rb)
           (tail rb) (lenght rb - n) (array_addr rb) (max_length rb)).
Proof.
  intros Hwf Hn.
  destruct (wp_elim _ _ _ (Read_String_spec rb n Hwf Hn))
    as (r & rb1 & Hrun1 & -> & _).
  destruct (wp_elim _ _ _ (Read_String_state rb n Hwf Hn))
    as (r2 & rb2 & Hrun2 & _ & Heq).
  rewrite Hrun1 in Hrun2. injection Hrun2 as _ ->. subst rb2. exact Hrun1.
Qed.

Lemma Delete_run rb n :
  wf rb -> 0 <= n < 256 -> n <= lenght rb -> max_length rb + 255 < 2 ^ 32 ->
  run (Ring_Buffer_Delete n) rb
  = Ret (RING_BUFFER_SUCCESS,
         mk_ring_buffer
           (if head rb + n <? max_length rb then head rb + n
            else head rb + n - max_length rb)
           (tail rb) (lenght rb - n) (array_addr rb) (max_length rb)).
Proof.
  intros Hwf Hn Hle Hcap.
  destruct (wp_elim _ _ _ (Delete_spec rb n Hwf Hn Hle Hcap))
    as (r & rb1 & Hrun & -> & ->). exact Hrun.
Qed.

(** The integer arguments only count modulo their parameter's type. *)
Lemma Read_String_uint32 n :
  Ring_Buffer_Read_String (uint32_t n) = Ring_Buffer_Read_String n.
Proof.
  unfold Ring_Buffer_Read_String, uint32_t. by rewrite Zmod_mod.
Qed.

Lemma Delete_uint8 n : Ring_Buffer_Delete (uint8_t n) = Ring_Buffer_Delete n.
Proof.
  unfold Ring_Buffer_Delete, uint8_t. by rewrite Zmod_mod.
Qed.

Lemma Write_String_too_long rb input n :
  0 <= lenght rb -> 0 <= n -> lenght rb + n < 2 ^ 32 ->
  max_length rb < lenght rb + n ->
  run (Ring_Buffer_Write_String input n) rb = Ret (RING_BUFFER_ERROR, rb).
Proof.
  intros Hl Hn Hsum Hgt. destruct rb as [h t l a m]; cbn in *.
  unfold run, Ring_Buffer_Write_String. small. cbn. small.
  by replace (l + n >? m) with true by lia.
Qed.

(** ** Block writes and reads as a queue *)

(** X1: a block write that fits succeeds, keeps the handle well formed,
    leaves [head] where it was and appends the first [n] bytes of the
    block after the bytes already stored. *)
Theorem write_string_appends :
  forall rb input n,
    wf rb -> 0 <= n <= Z.of_nat (length input) ->
    lenght rb + n <= max_length rb ->
    exists rb',
      run (Ring_Buffer_Write_String input n) rb = Ret (RING_BUFFER_SUCCESS, rb') /\
      wf rb' /\
      contents rb' = contents rb ++ take (Z.to_nat n) input /\
      lenght rb' = lenght rb + n /\
      head rb' = head rb.
Proof.
  intros rb input n Hwf Hn Hfit.
  destruct (wp_elim _ _ _ (Write_String_spec rb input n Hwf ltac:(lia) Hfit ltac:(lia)))
    as (r & rb' & Hrun & -> & Hwf' & Hc & Hl & Hh & _).
  exists rb'. split_and!; done.
Qed.

Lemma write_string_appends_witness :
  wf wrapped /\ 0 <= 1 <= Z.of_nat (length [7; 8]) /\
  lenght wrapped + 1 <= max_length wrapped /\
  exists rb',
    run (Ring_Buffer_Write_String [7; 8] 1) wrapped = Ret (RING_BUFFER_SUCCESS, rb') /\
    wf rb' /\
    contents rb' = contents wrapped ++ take (Z.to_nat 1) [7; 8] /\
    lenght rb' = lenght wrapped + 1 /\
    head rb' = head wrapped.
Proof.
  assert (wf wrapped) as Hwf by solve_wf_concrete wrapped 5 3 6 8.
  assert (0 <= 1 <= Z.of_nat (length [7; 8])) as Hn by (cbn; lia).
  assert (lenght wrapped + 1 <= max_length wrapped) as Hfit
    by (change (lenght wrapped) with 6; change (max_length wrapped) with 8; lia).
  split; [exact Hwf|]. split; [exact Hn|]. split; [exact Hfit|].
  exact (write_string_appends wrapped [7; 8] 1 Hwf Hn Hfit).
Defined.

(** X2: a block read of [n] bytes, [n] at most the stored length,
    succeeds, returns the [n] oldest stored bytes in the order they were
    written, leaves the others stored and does not touch the array. *)
Theorem read_string_takes_oldest_bytes :
  forall rb n,
    wf rb -> 0 <= n <= lenght rb ->
    exists rb',
      run (Ring_Buffer_Read_String n) rb
        = Ret ((RING_BUFFER_SUCCESS, take (Z.to_nat n) (contents rb)), rb') /\
      wf rb' /\
      contents rb' = drop (Z.to_nat n) (contents rb) /\
      array_addr rb' = array_addr rb /\
      tail rb' = tail rb.
Proof.
  intros rb n Hwf Hn.
  destruct (advanced_handle rb n Hwf Hn) as [Hwf' Hc].
  eexists. split; [apply Read_String_run; done|]. split_and!; done.
Qed.

Lemma read_string_takes_oldest_bytes_witness :
  wf wrapped /\ 0 <= 4 <= lenght wrapped /\
  exists rb',
    run (Ring_Buffer_Read_String 4) wrapped
      = Ret ((RING_BUFFER_SUCCESS, take (Z.to_nat 4) (contents wrapped)), rb') /\
    wf rb' /\
    contents rb' = drop (Z.to_nat 4) (contents wrapped) /\
    array_addr rb' = array_addr wrapped /\
    tail rb' = tail wrapped.
Proof.
  assert (wf wrapped) as Hwf by solve_wf_concrete wrapped 5 3 6 8.
  assert (0 <= 4 <= lenght wrapped) as Hn by (change (lenght wrapped) with 6; lia).
  split; [exact Hwf|]. split; [exact Hn|].
  exact (read_string_takes_oldest_bytes wrapped 4 Hwf Hn).
Defined.

(** X3: reading [a] bytes and then [b] bytes gives, one after the other,
    the bytes that reading [a + b] bytes at once gives, and leaves the
    same handle. *)
Theorem two_reads_are_one :
  forall rb a b,
    wf rb -> 0 <= a -> 0 <= b -> a + b <= lenght rb ->
    exists out_a out_b rb',
      run (ra <- Ring_Buffer_Read_String a ;;
           rb_ <- Ring_Buffer_Read_String b ;;
           ret (ra, rb_)) rb
        = Ret (((RING_BUFFER_SUCCESS, out_a), (RING_BUFFER_SUCCESS, out_b)), rb') /\
      run (Ring_Buffer_Read_String (a + b)) rb
        = Ret ((RING_BUFFER_SUCCESS, out_a ++ out_b), rb').
Proof.
  intros rb a b Hwf Ha Hb Hab.
  pose proof Hwf as (Hsz & Hmax & Hh & Ht & Hl & Hth).
  destruct (advanced_handle rb a Hwf ltac:(lia)) as [Hwf1 Hc1].
  pose proof (contents_length rb Hwf) as Hclen.
  eexists _, _, _. split.
  - rewrite (run_bind_Ret _ _ _ _ _ (Read_String_run rb a Hwf ltac:(lia))).
    rewrite (run_bind_Ret _ _ _ _ _ (Read_String_run _ b Hwf1 ltac:(cbn; lia))).
    rewrite run_ret. reflexivity.
  - rewrite (Read_String_run rb (a + b) Hwf ltac:(lia)). cbn.
    rewrite Hc1. rewrite Z2Nat.inj_add, take_add_drop by lia.
    do 2 f_equal. f_equal; [|lia].
    repeat match goal with |- context [?x <? ?y] => destruct (Z.ltb_spec x y) end; lia.
Qed.

Lemma two_reads_are_one_witness :
  wf wrapped /\ 0 <= 2 /\ 0 <= 3 /\ 2 + 3 <= lenght wrapped /\
  exists out_a out_b rb',
    run (ra <- Ring_Buffer_Read_String 2 ;;
         rb_ <- Ring_Buffer_Read_String 3 ;;
         ret (ra, rb_)) wrapped
      = Ret (((RING_BUFFER_SUCCESS, out_a), (RING_BUFFER_SUCCESS, out_b)), rb') /\
    run (Ring_Buffer_Read_String (2 + 3)) wrapped
      = Ret ((RING_BUFFER_SUCCESS, out_a ++ out_b), rb').
Proof.
  assert (wf wrapped) as Hwf by solve_wf_concrete wrapped 5 3 6 8.
  assert (2 + 3 <= lenght wrapped) as Hab by (change (lenght wrapped) with 6; lia).
  split; [exact Hwf|]. split; [lia|]. split; [lia|]. split; [exact Hab|].
  exact (two_reads_are_one wrapped 2 3 Hwf ltac:(lia) ltac:(lia) Hab).
Defined.

(** X4: deleting [n] bytes, [n] at most 255 and at most the stored
    length, succeeds, drops the [n] oldest stored bytes, keeps the
    others and touches neither [tail] nor the array. *)
Theorem delete_drops_oldest_bytes :
  forall rb n,
    wf rb -> max_length rb + 255 < 2 ^ 32 ->
    0 <= n < 256 -> n <= lenght rb ->
    exists rb',
      run (Ring_Buffer_Delete n) rb = Ret (RING_BUFFER_SUCCESS, rb') /\
      wf rb' /\
      contents rb' = drop (Z.to_nat n) (contents rb) /\
      array_addr rb' = array_addr rb /\
      tail rb' = tail rb.
Proof.
  intros rb n Hwf Hcap Hn Hle.
  destruct (advanced_handle rb n Hwf ltac:(lia)) as [Hwf' Hc].
  eexists. split; [apply Delete_run; done|]. split_and!; done.
Qed.

Lemma delete_drops_oldest_bytes_witness :
  wf wrapped /\ max_length wrapped + 255 < 2 ^ 32 /\
  0 <= 4 < 256 /\ 4 <= lenght wrapped /\
  exists rb',
    run (Ring_Buffer_Delete 4) wrapped = Ret (RING_BUFFER_SUCCESS, rb') /\
    wf rb' /\
    contents rb' = drop (Z.to_nat 4) (contents wrapped) /\
    array_addr rb' = array_addr wrapped /\
    tail rb' = tail wrapped.
Proof.
  assert (wf wrapped) as Hwf by solve_wf_concrete wrapped 5 3 6 8.
  assert (max_length wrapped + 255 < 2 ^ 32) as Hcap
    by (change (max_length wrapped) with 8; lia).
  assert (4 <= lenght wrapped) as Hle by (change (lenght wrapped) with 6; lia).
  split; [exact Hwf|]. split; [exact Hcap|]. split; [lia|]. split; [exact Hle|].
  exact (delete_drops_oldest_bytes wrapped 4 Hwf Hcap ltac:(lia) Hle).
Defined.

(** ** Free space, single bytes and initialisation *)

(** X5: [Ring_Buffer_Get_FreeSize] returns [max_length - lenght], and a
    block write of [n] bytes succeeds exactly when [n] is at most that:
    then the stored length grows by [n]; otherwise the call fails and
    the handle is unchanged. *)
Theorem free_size_decides_block_write :
  forall rb input n,
    wf rb -> 0 <= n <= Z.of_nat (length input) -> lenght rb + n < 2 ^ 32 ->
    exists st rb',
      run Ring_Buffer_Get_FreeSize rb = Ret (max_length rb - lenght rb, rb) /\
      run (Ring_Buffer_Write_String input n) rb = Ret (st, rb') /\
      ((n <= max_length rb - lenght rb /\ st = RING_BUFFER_SUCCESS /\
        run Ring_Buffer_Get_Length rb' = Ret (lenght rb + n, rb')) \/
       (max_length rb - lenght rb < n /\ st = RING_BUFFER_ERROR /\ rb' = rb)).
Proof.
  intros rb input n Hwf Hn Hsum.
  pose proof Hwf as (Hsz & Hmax & Hh & Ht & Hl & Hth).
  assert (run Ring_Buffer_Get_FreeSize rb = Ret (max_length rb - lenght rb, rb))
    as Hfree.
  { unfold Ring_Buffer_Get_FreeSize.
    rewrite run_bind, run_get_max_length, run_bind, run_get_lenght, run_ret.
    by small. }
  destruct (decide (n <= max_length rb - lenght rb)) as [Hfit|Hnofit].
  - destruct (wp_elim _ _ _ (Write_String_spec rb input n Hwf ltac:(lia)
                               ltac:(lia) ltac:(lia)))
      as (r & rb' & Hrun & -> & _ & _ & Hl' & _).
    exists RING_BUFFER_SUCCESS, rb'. split_and!; try done.
    left. split_and!; try done.
    unfold Ring_Buffer_Get_Length. by rewrite run_get_lenght, Hl'.
  - exists RING_BUFFER_ERROR, rb. split_and!; try done.
    + apply Write_String_too_long; lia.
    + right. split_and!; try done. lia.
Qed.

Lemma free_size_decides_block_write_witness :
  wf wrapped /\ 0 <= 2 <= Z.of_nat (length [7; 8]) /\ lenght wrapped + 2 < 2 ^ 32 /\
  exists st rb',
    run Ring_Buffer_Get_FreeSize wrapped
      = Ret (max_length wrapped - lenght wrapped, wrapped) /\
    run (Ring_Buffer_Write_String [7; 8] 2) wrapped = Ret (st, rb') /\
    ((2 <= max_length wrapped - lenght wrapped /\ st = RING_BUFFER_SUCCESS /\
      run Ring_Buffer_Get_Length rb' = Ret (lenght wrapped + 2, rb')) \/
     (max_length wrapped - lenght wrapped < 2 /\ st = RING_BUFFER_ERROR /\
      rb' = wrapped)).
Proof.
  assert (wf wrapped) as Hwf by solve_wf_concrete wrapped 5 3 6 8.
  assert (0 <= 2 <= Z.of_nat (length [7; 8])) as Hn by (cbn; lia).
  assert (lenght wrapped + 2 < 2 ^ 32) as Hsum
    by (change (lenght wrapped) with 6; lia).
  split; [exact Hwf|]. split; [exact Hn|]. split; [exact Hsum|].
  exact (free_size_decides_block_write wrapped [7; 8] 2 Hwf Hn Hsum).
Defined.

(** X6: with two slots or more free, writing one byte is writing the
    block made of that byte: the two calls return the same status and
    leave the same handle, with the byte (reduced to 8 bits) appended to
    the stored bytes. *)
Theorem write_byte_is_one_byte_block :
  forall rb rb_data,
    wf rb -> lenght rb < max_length rb - 1 ->
    exists rb',
      run (Ring_Buffer_Write_Byte rb_data) rb = Ret (RING_BUFFER_SUCCESS, rb') /\
      run (Ring_Buffer_Write_String [uint8_t rb_data] 1) rb
        = Ret (RING_BUFFER_SUCCESS, rb') /\
      wf rb' /\
      contents rb' = contents rb ++ [uint8_t rb_data].
Proof.
  intros rb rb_data Hwf Hroom.
  destruct (wp_elim _ _ _ (Write_Byte_spec rb rb_data Hwf Hroom))
    as (st & rb' & Hrun & -> & Hwf' & Hc & _).
  exists rb'. split_and!; try done.
  rewrite <- Hrun. clear Hrun Hwf' Hc rb'.
  destruct Hwf as (Hsz & Hmax & Hh & Ht & Hl & Hth).
  destruct rb as [h t l a m]; cbn in *.
  unfold run, Ring_Buffer_Write_String, Ring_Buffer_Write_Byte. cbn. small.
  replace (l + 1 >? m) with false by lia.
  replace (l =? m - 1) with false by lia. cbn. small.
  replace (m - t <? 1) with false by lia. cbn.
  unfold bind, memcpy_to_array, store. cbn.
  replace (0 <=? t) with true by lia.
  replace (t + 1 <=? Z.of_nat (length a)) with true by lia.
  replace (t <? Z.of_nat (length a)) with true by lia.
  change (1 <=? Z.of_nat 1) with true. cbn. small.
  destruct (Z.eqb_spec (t + 1) m), (Z.gtb_spec (t + 1) (m - 1)); try lia; reflexivity.
Qed.

Lemma write_byte_is_one_byte_block_witness :
  wf wrapped /\ lenght wrapped < max_length wrapped - 1 /\
  exists rb',
    run (Ring_Buffer_Write_Byte 0x141) wrapped = Ret (RING_BUFFER_SUCCESS, rb') /\
    run (Ring_Buffer_Write_String [uint8_t 0x141] 1) wrapped
      = Ret (RING_BUFFER_SUCCESS, rb') /\
    wf rb' /\
    contents rb' = contents wrapped ++ [uint8_t 0x141].
Proof.
  assert (wf wrapped) as Hwf by solve_wf_concrete wrapped 5 3 6 8.
  assert (lenght wrapped < max_length wrapped - 1) as Hroom
    by (change (lenght wrapped) with 6; change (max_length wrapped) with 8; lia).
  split; [exact Hwf|]. split; [exact Hroom|].
  exact (write_byte_is_one_byte_block wrapped 0x141 Hwf Hroom).
Defined.

(** X7: with something stored, reading one byte is reading a block of
    one byte: both return the oldest stored byte and leave the same
    handle, with that byte removed from the stored bytes. *)
Theorem read_byte_is_one_byte_read :
  forall rb,
    wf rb -> 0 < lenght rb ->
    exists b rb',
      contents rb !! 0%nat = Some b /\
      run Ring_Buffer_Read_Byte rb = Ret (Some b, rb') /\
      run (Ring_Buffer_Read_String 1) rb = Ret ((RING_BUFFER_SUCCESS, [b]), rb') /\
      wf rb' /\
      contents rb' = drop 1 (contents rb).
Proof.
  intros rb Hwf Hsome.
  destruct (advanced_handle rb 1 Hwf ltac:(lia)) as [Hwf' Hc].
  pose proof (Read_String_run rb 1 Hwf ltac:(lia)) as Hread.
  pose proof (contents_length rb Hwf) as Hclen.
  destruct (contents rb) as [|b bytes] eqn:Hcont; [cbn in Hclen; lia|].
  change (take (Z.to_nat 1) (b :: bytes)) with [b] in Hread.
  eexists b, _. split_and!; [done | | exact Hread | exact Hwf' | exact Hc].
  pose proof (lookup_contents rb 0 Hwf ltac:(lia)) as Hfirst.
  pose proof Hwf as (Hsz & Hmax & Hh & Ht & Hl & Hth).
  rewrite position_0, Hcont in Hfirst by (split; lia).
  change (Z.to_nat 0) with 0%nat in Hfirst. cbn in Hfirst.
  clear Hread Hwf' Hc Hcont Hclen Hwf.
  destruct rb as [h t l a m]; cbn in *.
  unfold run, Ring_Buffer_Read_Byte. cbn.
  replace (l =? 0) with false by lia. cbn.
  unfold bind, load. cbn.
  replace (0 <=? h) with true by lia. rewrite <- Hfirst. cbn. small.
  destruct (Z.gtb_spec (h + 1) (m - 1)), (Z.ltb_spec (h + 1) m); try lia; cbn;
    unfold ret; [|reflexivity].
  replace (h + 1 - m) with 0 by lia. reflexivity.
Qed.

Lemma read_byte_is_one_byte_read_witness :
  wf wrapped /\ 0 < lenght wrapped /\
  exists b rb',
    contents wrapped !! 0%nat = Some b /\
    run Ring_Buffer_Read_Byte wrapped = Ret (Some b, rb') /\
    run (Ring_Buffer_Read_String 1) wrapped = Ret ((RING_BUFFER_SUCCESS, [b]), rb') /\
    wf rb' /\
    contents rb' = drop 1 (contents wrapped).
Proof.
  assert (wf wrapped) as Hwf by solve_wf_concrete wrapped 5 3 6 8.
  assert (0 < lenght wrapped) as Hsome by (change (lenght wrapped) with 6; lia).
  split; [exact Hwf|]. split; [exact Hsome|].
  exact (read_byte_is_one_byte_read wrapped Hwf Hsome).
Defined.

(** X8: whatever the handle held before, [Ring_Buffer_Init] on an array
    of [buffer_size] bytes, [buffer_size] at least 2, succeeds and
    leaves a well-formed handle bound to that array with nothing stored
    and [buffer_size] bytes reported free. With [buffer_size] below 2 it
    reports failure, yet the handle has been reset and bound all the
    same. *)
Theorem init_gives_an_empty_ring :
  forall rb0 buffer_addr buffer_size,
    buffer_size = Z.of_nat (length buffer_addr) -> buffer_size < 2 ^ 32 ->
    let rb := mk_ring_buffer 0 0 0 buffer_addr buffer_size in
    (2 <= buffer_size ->
     run (Ring_Buffer_Init buffer_addr buffer_size) rb0 = Ret (RING_BUFFER_SUCCESS, rb) /\
     wf rb /\ contents rb = [] /\
     run Ring_Buffer_Get_Length rb = Ret (0, rb) /\
     run Ring_Buffer_Get_FreeSize rb = Ret (buffer_size, rb)) /\
    (buffer_size < 2 ->
     run (Ring_Buffer_Init buffer_addr buffer_size) rb0 = Ret (RING_BUFFER_ERROR, rb)).
Proof.
  intros rb0 buffer_addr buffer_size Hsize Hlt rb.
  assert (0 <= buffer_size) as Hpos by lia.
  assert (forall st, st = (if buffer_size <? 2 then RING_BUFFER_ERROR
                           else RING_BUFFER_SUCCESS) ->
                     run (Ring_Buffer_Init buffer_addr buffer_size) rb0 = Ret (st, rb))
    as Hrun.
  { intros st ->. unfold run, Ring_Buffer_Init. small. cbn.
    destruct (buffer_size <? 2); reflexivity. }
  split.
  - intros Hbig. split_and!.
    + apply Hrun. by replace (buffer_size <? 2) with false by lia.
    + unfold wf, rb. cbn. lia.
    + reflexivity.
    + reflexivity.
    + unfold Ring_Buffer_Get_FreeSize.
      rewrite run_bind, run_get_max_length, run_bind, run_get_lenght, run_ret.
      cbn. rewrite Z.sub_0_r. by small.
  - intros Hsmall. apply Hrun. by replace (buffer_size <? 2) with true by lia.
Qed.

Lemma init_gives_an_empty_ring_witness :
  8 = Z.of_nat (length (replicate 8 0)) /\ 8 < 2 ^ 32 /\ 2 <= 8 /\
  run (Ring_Buffer_Init (replicate 8 0) 8) wrapped
    = Ret (RING_BUFFER_SUCCESS, mk_ring_buffer 0 0 0 (replicate 8 0) 8) /\
  wf (mk_ring_buffer 0 0 0 (replicate 8 0) 8) /\
  1 = Z.of_nat (length [5]) /\ 1 < 2 /\
  run (Ring_Buffer_Init [5] 1) wrapped
    = Ret (RING_BUFFER_ERROR, mk_ring_buffer 0 0 0 [5] 1).
Proof.
  assert (8 = Z.of_nat (length (replicate 8 0))) as H8 by reflexivity.
  assert (1 = Z.of_nat (length [5])) as H1 by reflexivity.
  destruct (init_gives_an_empty_ring wrapped (replicate 8 0) 8 H8 ltac:(lia))
    as [Hok _].
  destruct (init_gives_an_empty_ring wrapped [5] 1 H1 ltac:(lia)) as [_ Hbad].
  destruct (Hok ltac:(lia)) as (Hrun & Hwf & _).
  split; [exact H8|]. split; [lia|]. split; [lia|]. split; [exact Hrun|].
  split; [exact Hwf|]. split; [exact H1|]. split; [lia|].
  exact (Hbad ltac:(lia)).
Defined.

(** ** Sequences of calls *)

Lemma contents_empty rb : wf rb -> lenght rb = 0 -> contents rb = [].
Proof.
  intros Hwf H0. apply length_zero_iff_nil.
  rewrite contents_length by done. lia.
Qed.

Lemma Read_Byte_empty rb :
  lenght rb = 0 -> run Ring_Buffer_Read_Byte rb = Ret (None, rb).
Proof.
  intros H0. destruct rb as [h t l a m]; cbn in *. subst l. reflexivity.
Qed.

(** What each consumer call does to a well-formed handle. *)
Lemma do_call_reader c rb :
  wf rb -> max_length rb + 255 < 2 ^ 32 ->
  match c with
  | Read_Byte_call | Read_String_call _ | Delete_call _ => True
  | _ => False
  end ->
  exists rb',
    run (do_call c) rb = Ret (tt, rb') /\
    wf rb' /\ lenght rb' <= lenght rb /\ max_length rb' = max_length rb /\
    contents rb' = queue_call (max_length rb) c (contents rb).
Proof.
  intros Hwf Hcap Hc.
  pose proof Hwf as (Hsz & Hmax & Hh & Ht & Hl & Hth).
  pose proof (contents_length rb Hwf) as Hclen.
  destruct c as [d | | input | n | n | K L]; try done; cbn [do_call queue_call].
  - (* Read_Byte *)
    destruct (decide (lenght rb = 0)) as [H0|Hpos].
    + exists rb. rewrite (run_bind_Ret _ _ _ _ _ (Read_Byte_empty rb H0)), run_ret.
      split_and!; try done; try lia.
      by rewrite (contents_empty rb Hwf H0).
    + destruct (wp_elim _ _ _ (Read_Byte_spec rb Hwf ltac:(lia)))
        as (r & rb' & Hrun & _ & _ & Hwf' & Hc' & Hl' & _ & Hm').
      exists rb'. rewrite (run_bind_Ret _ _ _ _ _ Hrun), run_ret.
      split_and!; try done; lia.
  - (* Read_String *)
    rewrite <- Read_String_uint32.
    pose proof (uint32_range n) as Hn. set (n' := uint32_t n) in *.
    destruct (Z.leb_spec n' (Z.of_nat (length (contents rb)))) as [Hle|Hgt].
    + destruct (wp_elim _ _ _ (Read_String_spec rb n' Hwf ltac:(lia)))
        as (r & rb' & Hrun & _ & Hwf' & Hc' & Hl' & _ & Hm').
      exists rb'. rewrite (run_bind_Ret _ _ _ _ _ Hrun), run_ret.
      split_and!; try done; lia.
    + exists rb.
      rewrite (run_bind_Ret _ _ _ _ _ (Read_String_too_long rb n' ltac:(lia) ltac:(lia))).
      rewrite run_ret. split_and!; try done; lia.
  - (* Delete *)
    rewrite <- Delete_uint8.
    pose proof (uint8_range n) as Hn. set (n' := uint8_t n) in *.
    change (2 ^ 8) with 256 in Hn.
    destruct (Z.leb_spec n' (Z.of_nat (length (contents rb)))) as [Hle|Hgt].
    + destruct (advanced_handle rb n' Hwf ltac:(lia)) as [Hwf' Hc'].
      eexists. rewrite (run_bind_Ret _ _ _ _ _
                          (Delete_run rb n' Hwf ltac:(lia) ltac:(lia) Hcap)), run_ret.
      split_and!; try done; cbn; lia.
    + exists rb.
      rewrite (run_bind_Ret _ _ _ _ _ (Delete_too_long rb n' ltac:(lia) ltac:(lia))).
      rewrite run_ret. split_and!; try done; lia.
Qed.

Lemma do_call_byte_writer c rb :
  wf rb -> lenght rb <= max_length rb - 1 -> max_length rb + 255 < 2 ^ 32 ->
  byte_writer c ->
  exists rb',
    run (do_call c) rb = Ret (tt, rb') /\
    wf rb' /\ lenght rb' <= max_length rb - 1 /\ max_length rb' = max_length rb /\
    contents rb' = queue_call (max_length rb) c (contents rb).
Proof.
  intros Hwf Hinv Hcap Hc.
  pose proof (contents_length rb Hwf) as Hclen.
  destruct c as [d | | input | n | n | K L]; try done.
  2-4: match goal with
       | |- context [do_call ?c] =>
           destruct (do_call_reader c rb Hwf Hcap I)
             as (rb' & Hrun & Hwf' & Hl' & Hm' & Hc')
       end;
       exists rb'; split_and!; try done; lia.
  cbn [do_call queue_call].
  pose proof Hwf as (Hsz & Hmax & Hh & Ht & Hl & Hth).
  destruct (Z.eqb_spec (Z.of_nat (length (contents rb))) (max_length rb - 1))
    as [Hfull|Hroom].
  - exists rb.
    rewrite (run_bind_Ret _ _ _ _ _ (Write_Byte_full rb d ltac:(small; lia))), run_ret.
    split_and!; done.
  - destruct (wp_elim _ _ _ (Write_Byte_spec rb d Hwf ltac:(lia)))
      as (st & rb' & Hrun & _ & Hwf' & Hc' & Hl' & _ & Hm').
    exists rb'. rewrite (run_bind_Ret _ _ _ _ _ Hrun), run_ret.
    split_and!; try done; lia.
Qed.

Lemma Insert_Keyword_as_block keyword keyword_lenght :
  Ring_Buffer_Insert_Keyword LittleEndian keyword keyword_lenght
  = Ring_Buffer_Write_String (be_bytes (uint32_t keyword) 4) (uint8_t keyword_lenght).
Proof. reflexivity. Qed.

Lemma Write_String_block rb input n :
  wf rb -> max_length rb <= 2 ^ 31 -> 0 <= n < 2 ^ 31 ->
  n <= Z.of_nat (length input) ->
  exists rb',
    run (Ring_Buffer_Write_String input n ;; ret tt) rb = Ret (tt, rb') /\
    wf rb' /\ max_length rb' = max_length rb /\
    contents rb' =
      (if Z.of_nat (length (contents rb)) + n <=? max_length rb
       then contents rb ++ take (Z.to_nat n) input else contents rb).
Proof.
  intros Hwf Hcap Hn Hin.
  pose proof Hwf as (Hsz & Hmax & Hh & Ht & Hl & Hth).
  pose proof (contents_length rb Hwf) as Hclen.
  destruct (Z.leb_spec (Z.of_nat (length (contents rb)) + n) (max_length rb))
    as [Hfit|Hnofit].
  - destruct (wp_elim _ _ _ (Write_String_spec rb input n Hwf ltac:(lia)
                               ltac:(lia) Hin))
      as (st & rb' & Hrun & _ & Hwf' & Hc' & _ & _ & Hm').
    exists rb'. rewrite (run_bind_Ret _ _ _ _ _ Hrun), run_ret. split_and!; done.
  - exists rb.
    rewrite (run_bind_Ret _ _ _ _ _
               (Write_String_too_long rb input n ltac:(lia) ltac:(lia)
                  ltac:(lia) ltac:(lia))), run_ret.
    split_and!; done.
Qed.

Lemma do_call_block_writer c rb :
  wf rb -> max_length rb <= 2 ^ 31 -> block_writer c ->
  exists rb',
    run (do_call c) rb = Ret (tt, rb') /\
    wf rb' /\ max_length rb' = max_length rb /\
    contents rb' = queue_call (max_length rb) c (contents rb).
Proof.
  intros Hwf Hcap Hc.
  destruct c as [d | | input | n | n | K L]; try done.
  1,3,4: match goal with
         | |- context [do_call ?c] =>
             destruct (do_call_reader c rb Hwf ltac:(lia) I)
               as (rb' & Hrun & Hwf' & Hl' & Hm' & Hc')
         end;
         exists rb'; split_and!; done.
  - cbn [do_call queue_call block_writer] in *.
    destruct (Write_String_block rb input (Z.of_nat (length input)) Hwf Hcap
                ltac:(lia) ltac:(lia)) as (rb' & Hrun & Hwf' & Hm' & Hc').
    rewrite Nat2Z.id, firstn_all in Hc'.
    exists rb'. split_and!; done.
  - cbn [do_call queue_call block_writer] in *.
    rewrite Insert_Keyword_as_block.
    pose proof (uint8_range L) as HL.
    destruct (Write_String_block rb (be_bytes (uint32_t K) 4) (uint8_t L) Hwf Hcap
                ltac:(lia) ltac:(rewrite be_bytes_length; lia))
      as (rb' & Hrun & Hwf' & Hm' & Hc').
    exists rb'. split_and!; done.
Qed.

(** X9: a ring that is only written byte by byte is a first-in
    first-out queue with one slot kept free: from a well-formed handle
    holding at most [max_length - 1] bytes, every sequence of
    write_byte, read_byte, read_block and delete calls, whatever their
    arguments, returns, leaves a well-formed handle that still holds at
    most [max_length - 1] bytes, and stores what the queue stores. *)
Theorem byte_writer_ring_is_a_queue :
  forall cs rb,
    wf rb -> lenght rb <= max_length rb - 1 -> max_length rb + 255 < 2 ^ 32 ->
    Forall byte_writer cs ->
    exists rb',
      run (do_calls cs) rb = Ret (tt, rb') /\
      wf rb' /\
      lenght rb' <= max_length rb' - 1 /\
      max_length rb' = max_length rb /\
      contents rb' = queue_calls (max_length rb) cs (contents rb).
Proof.
  induction cs as [|c cs IH]; intros rb Hwf Hinv Hcap Hcs.
  - exists rb. split_and!; done.
  - apply Forall_cons in Hcs as [Hc Hcs].
    destruct (do_call_byte_writer c rb Hwf Hinv Hcap Hc)
      as (rb1 & Hrun1 & Hwf1 & Hl1 & Hm1 & Hc1).
    destruct (IH rb1 Hwf1 ltac:(lia) ltac:(lia) Hcs)
      as (rb' & Hrun & Hwf' & Hl' & Hm' & Hc').
    exists rb'. cbn [do_calls]. rewrite (run_bind_Ret _ _ _ _ _ Hrun1).
    split_and!; try done; try lia.
    rewrite Hc', Hc1, Hm1. reflexivity.
Qed.

Lemma byte_writer_ring_is_a_queue_witness :
  wf wrapped /\ lenght wrapped <= max_length wrapped - 1 /\
  max_length wrapped + 255 < 2 ^ 32 /\
  exists rb',
    run (do_calls [Write_Byte_call 7; Write_Byte_call 8; Read_String_call 3;
                   Delete_call 9; Read_Byte_call]) wrapped = Ret (tt, rb') /\
    wf rb' /\
    lenght rb' <= max_length rb' - 1 /\
    max_length rb' = max_length wrapped /\
    contents rb' =
      queue_calls (max_length wrapped)
        [Write_Byte_call 7; Write_Byte_call 8; Read_String_call 3;
         Delete_call 9; Read_Byte_call] (contents wrapped).
Proof.
  assert (wf wrapped) as Hwf by solve_wf_concrete wrapped 5 3 6 8.
  assert (lenght wrapped <= max_length wrapped - 1) as Hinv
    by (change (lenght wrapped) with 6; change (max_length wrapped) with 8; lia).
  assert (max_length wrapped + 255 < 2 ^ 32) as Hcap
    by (change (max_length wrapped) with 8; lia).
  split; [exact Hwf|]. split; [exact Hinv|]. split; [exact Hcap|].
  apply (byte_writer_ring_is_a_queue _ wrapped Hwf Hinv Hcap).
  repeat (apply Forall_cons; split); try apply Forall_nil; exact I.
Defined.

(** X10: a ring that is only written by blocks and keywords is a
    first-in first-out queue that may fill every slot: from a
    well-formed handle of capacity at most [2 ^ 31], every sequence of
    write_block, insert_keyword (at most 4 bytes, little-endian host),
    read_byte, read_block and delete calls returns, leaves a well-formed
    handle, and stores what the queue stores. *)
Theorem block_writer_ring_is_a_queue :
  forall cs rb,
    wf rb -> max_length rb <= 2 ^ 31 ->
    Forall block_writer cs ->
    exists rb',
      run (do_calls cs) rb = Ret (tt, rb') /\
      wf rb' /\
      max_length rb' = max_length rb /\
      contents rb' = queue_calls (max_length rb) cs (contents rb).
Proof.
  induction cs as [|c cs IH]; intros rb Hwf Hcap Hcs.
  - exists rb. split_and!; done.
  - apply Forall_cons in Hcs as [Hc Hcs].
    destruct (do_call_block_writer c rb Hwf Hcap Hc)
      as (rb1 & Hrun1 & Hwf1 & Hm1 & Hc1).
    destruct (IH rb1 Hwf1 ltac:(lia) Hcs) as (rb' & Hrun & Hwf' & Hm' & Hc').
    exists rb'. cbn [do_calls]. rewrite (run_bind_Ret _ _ _ _ _ Hrun1).
    split_and!; try done; try lia.
    rewrite Hc', Hc1, Hm1. reflexivity.
Qed.

Lemma block_writer_ring_is_a_queue_witness :
  wf wrapped /\ max_length wrapped <= 2 ^ 31 /\
  exists rb',
    run (do_calls [Write_String_call [7; 8]; Read_String_call 3;
                   Insert_Keyword_call SEPARATE_SIGN 4; Delete_call 2;
                   Write_String_call [1]]) wrapped = Ret (tt, rb') /\
    wf rb' /\
    max_length rb' = max_length wrapped /\
    contents rb' =
      queue_calls (max_length wrapped)
        [Write_String_call [7; 8]; Read_String_call 3;
         Insert_Keyword_call SEPARATE_SIGN 4; Delete_call 2;
         Write_String_call [1]] (contents wrapped).
Proof.
  assert (wf wrapped) as Hwf by solve_wf_concrete wrapped 5 3 6 8.
  assert (max_length wrapped <= 2 ^ 31) as Hcap
    by (change (max_length wrapped) with 8; lia).
  split; [exact Hwf|]. split; [exact Hcap|].
  apply (block_writer_ring_is_a_queue _ wrapped Hwf Hcap).
  repeat (apply Forall_cons; split); try apply Forall_nil;
    unfold block_writer; try exact I.
  - change (Z.of_nat (length [7; 8])) with 2. lia.
  - change (uint8_t 4) with 4. lia.
  - change (Z.of_nat (length [1])) with 1. lia.
Defined.

(** ** Word reconstruction and search *)

(** X11: [Ring_Buffer_Get_Word] returns the number that the [L] bytes
    of the ring from index [p] on spell, most significant byte first,
    going round the end of the array where it must, and that number's
    big-endian bytes are those bytes. *)
Theorem get_word_reads_big_endian :
  forall rb p L,
    max_length rb = Z.of_nat (length (array_addr rb)) ->
    max_length rb < 2 ^ 32 ->
    Forall is_byte (array_addr rb) ->
    1 <= L <= 4 -> L <= max_length rb -> 0 <= p < max_length rb ->
    let bytes := window (array_addr rb) (Z.to_nat p) (Z.to_nat L) in
    run (Ring_Buffer_Get_Word p L) rb = Ret (be_value bytes, rb) /\
    be_bytes (be_value bytes) L = bytes.
Proof.
  intros rb p L Hsz Hmax Hbyte HL HLm Hp bytes.
  assert (Z.of_nat (length bytes) = L) as Hlen.
  { unfold bytes. rewrite length_window; lia. }
  assert (Forall is_byte bytes) as Hok.
  { unfold bytes, window. by apply Forall_take, Forall_drop, Forall_app. }
  split; [|by apply be_bytes_be_value].
  assert (position rb (p - head rb) = p) as Hpos.
  { unfold position. replace (head rb + (p - head rb)) with p by lia.
    apply Z.mod_small. lia. }
  rewrite <- Hpos at 1.
  apply Get_Word_value; try done; try lia.
  intros j b Hj.
  assert (j < length bytes)%nat as Hjlt by (by apply lookup_lt_Some in Hj).
  unfold bytes in Hj. rewrite lookup_window in Hj by lia.
  destruct (decide (j < Z.to_nat L)%nat); [|lia].
  unfold position.
  replace (head rb + (p - head rb + Z.of_nat j)) with (p + Z.of_nat j) by lia.
  rewrite <- Hj. case_decide.
  - rewrite Z.mod_small by lia. f_equal. lia.
  - rewrite mod_wrap by lia. f_equal. lia.
Qed.

Lemma get_word_reads_big_endian_witness :
  max_length wrapped = Z.of_nat (length (array_addr wrapped)) /\
  Forall is_byte (array_addr wrapped) /\
  run (Ring_Buffer_Get_Word 7 4) wrapped
    = Ret (be_value (window (array_addr wrapped) (Z.to_nat 7) (Z.to_nat 4)), wrapped) /\
  be_bytes (be_value (window (array_addr wrapped) (Z.to_nat 7) (Z.to_nat 4))) 4
    = window (array_addr wrapped) (Z.to_nat 7) (Z.to_nat 4).
Proof.
  assert (max_length wrapped = Z.of_nat (length (array_addr wrapped))) as Hsz
    by reflexivity.
  assert (Forall is_byte (array_addr wrapped)) as Hbyte.
  { change (array_addr wrapped) with [251; 34; 170; 9; 9; 1; 2; 204].
    repeat constructor; unfold is_byte; lia. }
  split; [exact Hsz|]. split; [exact Hbyte|].
  apply (get_word_reads_big_endian wrapped 7 4 Hsz); try exact Hbyte;
    change (max_length wrapped) with 8; lia.
Defined.

(** The test at an offset inside the stored bytes succeeds exactly where
    the keyword's bytes stand. *)
Lemma hit_at_contents rb K L j :
  wf rb -> Forall is_byte (array_addr rb) ->
  1 <= L <= 4 -> 0 <= K < 256 ^ L -> 0 <= j -> j + L <= lenght rb ->
  exists b,
    hit_at rb K L (uint8_t (Z.shiftr K ((L - 1) * 8))) j = Ret (b, rb) /\
    (b = true <->
     take (Z.to_nat L) (drop (Z.to_nat j) (contents rb)) = be_bytes K L).
Proof.
  intros Hwf Hbyte HL HK Hj HjL.
  pose proof (contents_length rb Hwf) as Hclen.
  unfold hit_at.
  destruct (take (Z.to_nat L) (drop (Z.to_nat j) (contents rb)))
    as [|b0 bytes] eqn:Hbytes.
  { apply (f_equal length) in Hbytes.
    rewrite length_take, length_drop, Hclen in Hbytes. cbn in Hbytes. lia. }
  rewrite (keyword_at_contents rb K L _ j b0 bytes) by (done || lia).
  eexists. split; [reflexivity|].
  assert (Z.of_nat (length (b0 :: bytes)) = L) as Hlen.
  { rewrite <- Hbytes, length_take, length_drop, Hclen. lia. }
  assert (Forall is_byte (b0 :: bytes)) as Hok.
  { rewrite <- Hbytes. by apply Forall_take, Forall_drop, contents_is_byte. }
  rewrite andb_true_iff, !Z.eqb_eq. split.
  - intros [_ Hv]. rewrite <- Hv. symmetry. by apply be_bytes_be_value.
  - intros Heq. rewrite Heq.
    pose proof (be_bytes_head K L ltac:(lia)) as Hhd.
    rewrite <- Heq in Hhd. injection Hhd as ->.
    split; [reflexivity | by apply be_value_be_bytes].
Qed.

(** Below a bound, a decidable property holds nowhere or has a first
    place where it holds. *)
Lemma first_place (P : Z -> Prop) (n : nat) :
  (forall j, Decision (P j)) ->
  (forall j, 0 <= j < Z.of_nat n -> ~ P j) \/
  (exists k, 0 <= k < Z.of_nat n /\ P k /\ forall j, 0 <= j < k -> ~ P j).
Proof.
  intros Hdec. induction n as [|n IH].
  - left. intros j Hj. lia.
  - destruct IH as [Hnone | Hfirst].
    + destruct (Hdec (Z.of_nat n)) as [HP|HnP].
      * right. exists (Z.of_nat n). split_and!; [lia | lia | done | done].
      * left. intros j Hj.
        destruct (decide (j = Z.of_nat n)) as [->|]; [done | apply Hnone; lia].
    + right. destruct Hfirst as (k & Hk & HP & Hbefore).
      exists k. split_and!; try done; lia.
Qed.

(** X12: the search is sound and complete on the stored bytes. On a
    well-formed ring of bytes holding at least [L - 1] bytes, for a
    keyword [K] that fits its length [L] (1 to 4), the search returns
    once it has fuel for [lenght - L + 2] turns of its loop; it returns
    0 exactly when the keyword's big-endian bytes stand nowhere in the
    stored bytes, and otherwise the 1-based offset of the first place
    where they stand, which leaves the whole keyword within the stored
    bytes. *)
Theorem find_keyword_finds_first_or_nothing :
  forall rb K L fuel,
    wf rb -> Forall is_byte (array_addr rb) ->
    1 <= L <= 4 -> 0 <= K < 256 ^ L ->
    L - 1 <= lenght rb < 2 ^ 32 - 1 ->
    (Z.to_nat (lenght rb - L + 1) < fuel)%nat ->
    let stands := keyword_stands_at (contents rb) K L in
    exists r,
      run (Ring_Buffer_Find_Keyword fuel K L) rb = Ret (r, rb) /\
      ((r = RING_BUFFER_ERROR /\ forall j, 0 <= j <= lenght rb - L -> ~ stands j) \/
       (1 <= r /\ r - 1 + L <= lenght rb /\ stands (r - 1) /\
        forall j, 0 <= j < r - 1 -> ~ stands j)).
Proof.
  intros rb K L fuel Hwf Hbyte HL HK Hlen Hfuel stands.
  pose proof Hwf as (Hsz & Hmax & Hh & Ht & Hl & Hth).
  assert (256 ^ L <= 2 ^ 32) as Hpow.
  { change 256 with (2 ^ 8). rewrite <- Z.pow_mul_r by lia.
    apply Z.pow_le_mono_r; lia. }
  assert (valid_head rb) as Hvalid by (split; lia).
  set (mx := lenght rb - L + 1).
  set (tr := uint8_t (Z.shiftr K ((L - 1) * 8))).
  assert (forall fuel' r,
             run (Find_Keyword_loop fuel' K L mx tr (1 + 0) (position rb 0)) rb
               = Ret (r, rb) ->
             run (Ring_Buffer_Find_Keyword fuel' K L) rb = Ret (find_return r, rb))
    as Htop.
  { intros fuel' r Hloop. rewrite position_0 in Hloop by done.
    unfold Ring_Buffer_Find_Keyword, Find_Keyword_scan. small.
    rewrite !run_bind, run_get_lenght, run_bind.
    unfold shift_right32.
    replace ((0 <=? (L - 1) * 8) && ((L - 1) * 8 <? 32)) with true by lia.
    rewrite run_ret, run_bind, run_get_head.
    replace (uint32_t (uint32_t (lenght rb - L) + 1)) with mx.
    2:{ unfold uint32_t. rewrite Zplus_mod_idemp_l. symmetry.
        apply Z.mod_small. unfold mx. lia. }
    fold tr. change (1 + 0) with 1 in Hloop. rewrite Hloop. reflexivity. }
  assert (forall j, 0 <= j < mx ->
            exists b, hit_at rb K L tr j = Ret (b, rb) /\ (b = true <-> stands j))
    as Hhit.
  { intros j Hj. apply hit_at_contents; try done; unfold mx in Hj; lia. }
  destruct (first_place (fun j => stands j) (Z.to_nat mx)
              ltac:(intros j; unfold stands, keyword_stands_at; apply _))
    as [Hnone | (k & Hk & Hstands & Hbefore)].
  - exists RING_BUFFER_ERROR. split.
    + apply (Htop fuel NotFound).
      apply Find_Keyword_loop_gives_up; try done; try (unfold mx; lia).
      intros j Hj. destruct (Hhit j Hj) as (b & Hrun & Hiff).
      rewrite Hrun. destruct b; [|done].
      exfalso. apply (Hnone j); [lia | by apply Hiff].
    + left. split; [done|]. intros j Hj. apply Hnone. unfold mx. lia.
  - exists (1 + k). split.
    + apply (Htop fuel (Found (1 + k))).
      apply Find_Keyword_loop_finds; try done; try (unfold mx; lia).
      * intros j Hj. destruct (Hhit j ltac:(lia)) as (b & Hrun & Hiff).
        rewrite Hrun. destruct b; [|done].
        exfalso. apply (Hbefore j); [lia | by apply Hiff].
      * destruct (Hhit k ltac:(lia)) as (b & Hrun & Hiff).
        rewrite Hrun. destruct b; [done|].
        by apply Hiff in Hstands.
    + right. replace (1 + k - 1) with k by lia.
      split_and!; try done; unfold mx in *; lia.
Qed.

Lemma find_keyword_finds_first_or_nothing_witness :
  wf wrapped /\ Forall is_byte (array_addr wrapped) /\
  1 <= 4 <= 4 /\ 0 <= SEPARATE_SIGN < 256 ^ 4 /\
  4 - 1 <= lenght wrapped < 2 ^ 32 - 1 /\
  (Z.to_nat (lenght wrapped - 4 + 1) < 8)%nat /\
  exists r,
    run (Ring_Buffer_Find_Keyword 8 SEPARATE_SIGN 4) wrapped = Ret (r, wrapped) /\
    ((r = RING_BUFFER_ERROR /\
      forall j, 0 <= j <= lenght wrapped - 4 ->
                ~ keyword_stands_at (contents wrapped) SEPARATE_SIGN 4 j) \/
     (1 <= r /\ r - 1 + 4 <= lenght wrapped /\
      keyword_stands_at (contents wrapped) SEPARATE_SIGN 4 (r - 1) /\
      forall j, 0 <= j < r - 1 ->
                ~ keyword_stands_at (contents wrapped) SEPARATE_SIGN 4 j)).
Proof.
  assert (wf wrapped) as Hwf by solve_wf_concrete wrapped 5 3 6 8.
  assert (Forall is_byte (array_addr wrapped)) as Hbyte.
  { change (array_addr wrapped) with [251; 34; 170; 9; 9; 1; 2; 204].
    repeat constructor; unfold is_byte; lia. }
  assert (0 <= SEPARATE_SIGN < 256 ^ 4) as HK
    by (change (256 ^ 4) with 4294967296; unfold SEPARATE_SIGN; lia).
  assert (4 - 1 <= lenght wrapped < 2 ^ 32 - 1) as Hlen
    by (change (lenght wrapped) with 6; lia).
  assert (Z.to_nat (lenght wrapped - 4 + 1) < 8)%nat as Hfuel
    by (change (lenght wrapped) with 6; lia).
  split; [exact Hwf|]. split; [exact Hbyte|]. split; [lia|]. split; [exact HK|].
  split; [exact Hlen|]. split; [exact Hfuel|].
  exact (find_keyword_finds_first_or_nothing wrapped SEPARATE_SIGN 4 8 Hwf Hbyte
           ltac:(lia) HK Hlen Hfuel).
Defined.




(** ** Keywords and paragraphs *)

Lemma Forall_list_inserts {A} (P : A -> Prop) (l k : list A) i :
  Forall P l -> Forall P k -> Forall P (list_inserts i k l).
Proof.
  intros Hl Hk. revert i. induction Hk as [|x k Hx Hk IH]; intros i; cbn; [done|].
  apply Forall_insert; [apply IH | done].
Qed.

(** A block write of bytes leaves an array of bytes. *)
Lemma Write_String_bytes rb input n st rb' :
  wf rb -> 0 <= n <= Z.of_nat (length input) -> lenght rb + n <= max_length rb ->
  Forall is_byte (array_addr rb) -> Forall is_byte input ->
  run (Ring_Buffer_Write_String input n) rb = Ret (st, rb') ->
  Forall is_byte (array_addr rb').
Proof.
  intros (Hsz & Hmax & Hh & Ht & Hl & Hth) Hn Hfit Harr Hin Hrun.
  enough (wp (Ring_Buffer_Write_String input n)
             (fun _ rb1 => Forall is_byte (array_addr rb1)) rb) as Hwp.
  { unfold wp in Hwp. by rewrite Hrun in Hwp. }
  clear Hrun. destruct rb as [h t l a m]; cbn in *.
  unfold Ring_Buffer_Write_String. small.
  do 4 wp_step. cbn. small.
  destruct (l + n >? m) eqn:E1; [lia|].
  do 2 wp_step. cbn. small.
  destruct (n >? m - t) eqn:E2.
  - replace (m - t <? n) with true by lia. small.
    destruct (n - (m - t) =? 0) eqn:E3; [lia|]. cbn.
    do 2 wp_step. apply wp_memcpy_to_array; cbn; [lia..|].
    wp_step. apply wp_memcpy_to_array; cbn;
      [try lia; rewrite ?length_inserts, ?length_drop; lia..|].
    repeat wp_step. cbn.
    repeat apply Forall_list_inserts; try done;
      repeat first [apply Forall_take | apply Forall_drop]; done.
  - replace (m - t <? n) with false by lia. cbn.
    do 2 wp_step. apply wp_memcpy_to_array; cbn; [lia..|].
    repeat wp_step. cbn. small.
    destruct (t + n =? m); repeat wp_step; cbn;
      apply Forall_list_inserts; try done; by apply Forall_take.
Qed.

Lemma keyword_stands_after q K L post :
  0 <= L -> keyword_stands_at (q ++ be_bytes K L ++ post) K L (Z.of_nat (length q)).
Proof.
  intros HL. unfold keyword_stands_at.
  rewrite Nat2Z.id, drop_app_length, take_app_length'; [done|].
  pose proof (be_bytes_length K L HL). lia.
Qed.

(** The search returns one more than the first offset at which the
    keyword stands. *)
Lemma Find_Keyword_first_stand rb K L k fuel :
  wf rb -> Forall is_byte (array_addr rb) ->
  1 <= L <= 4 -> 0 <= K < 256 ^ L ->
  0 <= k -> k + L <= lenght rb ->
  keyword_stands_at (contents rb) K L k ->
  (forall j, 0 <= j < k -> ~ keyword_stands_at (contents rb) K L j) ->
  (Z.to_nat k < fuel)%nat ->
  run (Ring_Buffer_Find_Keyword fuel K L) rb = Ret (k + 1, rb).
Proof.
  intros Hwf Hbyte HL HK Hk HkL Hstands Hfirst Hfuel.
  pose proof (contents_length rb Hwf) as Hclen.
  pose proof (take_drop_split (contents rb) (Z.to_nat k) (Z.to_nat L)) as Hsplit.
  unfold keyword_stands_at in Hstands. rewrite Hstands in Hsplit.
  unfold Ring_Buffer_Find_Keyword.
  rewrite run_bind,
    (find_keyword_first_occurrence rb K L (take (Z.to_nat k) (contents rb))
       (drop (Z.to_nat k + Z.to_nat L) (contents rb))); try done.
  - rewrite run_ret. cbn. rewrite length_take, Hclen. do 2 f_equal. lia.
  - intros pre' post' Hocc. rewrite length_take, Hclen.
    destruct (decide (length pre' < Z.to_nat k)%nat) as [Hlt|]; [|lia].
    exfalso. apply (Hfirst (Z.of_nat (length pre'))); [lia|].
    rewrite Hocc. apply keyword_stands_after. lia.
  - rewrite length_take, Hclen. lia.
Qed.

(** X14: keyword round trip. On a little-endian host, inserting a
    4-byte keyword appends its four big-endian bytes, and a search for
    it right afterwards returns the number of bytes stored before plus
    one, provided the keyword's bytes do not already stand earlier. *)
Theorem insert_then_find_keyword :
  forall rb K fuel,
    wf rb -> Forall is_byte (array_addr rb) ->
    0 <= K < 2 ^ 32 -> lenght rb + 4 <= max_length rb ->
    (forall j, 0 <= j < lenght rb ->
               ~ keyword_stands_at (contents rb ++ be_bytes K 4) K 4 j) ->
    (Z.to_nat (lenght rb) < fuel)%nat ->
    exists rb',
      run (Ring_Buffer_Insert_Keyword LittleEndian K 4) rb
        = Ret (RING_BUFFER_SUCCESS, rb') /\
      contents rb' = contents rb ++ be_bytes K 4 /\
      run (Ring_Buffer_Find_Keyword fuel K 4) rb' = Ret (lenght rb + 1, rb').
Proof.
  intros rb K fuel Hwf Hbyte HK Hfit Hfirst Hfuel.
  rewrite Insert_Keyword_as_block. small. change (uint8_t 4) with 4.
  pose proof (be_bytes_length K 4 ltac:(lia)) as Hblen.
  destruct (wp_elim _ _ _ (Write_String_spec rb (be_bytes K 4) 4 Hwf ltac:(lia)
                             Hfit ltac:(lia)))
    as (st & rb' & Hrun & -> & Hwf' & Hc & Hl' & _ & _).
  rewrite take_ge in Hc by lia.
  pose proof (Write_String_bytes rb (be_bytes K 4) 4 _ rb' Hwf ltac:(lia) Hfit Hbyte
                (be_bytes_is_byte K 4) Hrun) as Hbyte'.
  pose proof (contents_length rb Hwf) as Hclen.
  destruct Hwf as (_ & _ & _ & _ & Hl & _).
  exists rb'. split_and!; try done.
  apply Find_Keyword_first_stand; try done; try lia.
  - rewrite Hc. rewrite <- (app_nil_r (be_bytes K 4)) at 1.
    replace (lenght rb) with (Z.of_nat (length (contents rb))) by lia.
    apply keyword_stands_after. lia.
  - by rewrite Hc.
Qed.

Lemma insert_then_find_keyword_witness :
  wf two_near_the_end /\ Forall is_byte (array_addr two_near_the_end) /\
  0 <= SEPARATE_SIGN < 2 ^ 32 /\
  lenght two_near_the_end + 4 <= max_length two_near_the_end /\
  (Z.to_nat (lenght two_near_the_end) < 8)%nat /\
  exists rb',
    run (Ring_Buffer_Insert_Keyword LittleEndian SEPARATE_SIGN 4) two_near_the_end
      = Ret (RING_BUFFER_SUCCESS, rb') /\
    contents rb' = contents two_near_the_end ++ be_bytes SEPARATE_SIGN 4 /\
    run (Ring_Buffer_Find_Keyword 8 SEPARATE_SIGN 4) rb'
      = Ret (lenght two_near_the_end + 1, rb').
Proof.
  assert (wf two_near_the_end) as Hwf by solve_wf_concrete two_near_the_end 5 7 2 8.
  assert (Forall is_byte (array_addr two_near_the_end)) as Hbyte.
  { change (array_addr two_near_the_end) with [9; 9; 9; 9; 9; 1; 2; 0].
    repeat constructor; unfold is_byte; lia. }
  assert (0 <= SEPARATE_SIGN < 2 ^ 32) as HK by (unfold SEPARATE_SIGN; lia).
  assert (lenght two_near_the_end + 4 <= max_length two_near_the_end) as Hfit
    by (change (lenght two_near_the_end) with 2;
        change (max_length two_near_the_end) with 8; lia).
  assert (Z.to_nat (lenght two_near_the_end) < 8)%nat as Hfuel
    by (change (lenght two_near_the_end) with 2; lia).
  split; [exact Hwf|]. split; [exact Hbyte|]. split; [exact HK|].
  split; [exact Hfit|]. split; [exact Hfuel|].
  apply (insert_then_find_keyword two_near_the_end SEPARATE_SIGN 8 Hwf Hbyte HK Hfit);
    [|exact Hfuel].
  change (lenght two_near_the_end) with 2. intros j Hj.
  assert (j = 0 \/ j = 1) as [-> | ->] by lia;
    unfold keyword_stands_at; vm_compute; discriminate.
Defined.

Lemma write_paragraph_run rb text :
  wf rb -> Forall is_byte (array_addr rb) -> Forall is_byte text ->
  lenght rb + Z.of_nat (length text) + 4 <= max_length rb ->
  exists rb',
    run (write_paragraph text) rb = Ret (RING_BUFFER_SUCCESS, rb') /\
    wf rb' /\ Forall is_byte (array_addr rb') /\
    max_length rb' = max_length rb /\
    contents rb' = contents rb ++ text ++ be_bytes SEPARATE_SIGN SEPARATE_SIGN_SIZE.
Proof.
  intros Hwf Hbyte Htext Hfit. unfold write_paragraph.
  destruct (wp_elim _ _ _ (Write_String_spec rb text (Z.of_nat (length text)) Hwf
                             ltac:(lia) ltac:(lia) ltac:(lia)))
    as (st & rb1 & Hrun1 & -> & Hwf1 & Hc1 & Hl1 & _ & Hm1).
  rewrite Nat2Z.id, firstn_all in Hc1.
  pose proof (Write_String_bytes rb text (Z.of_nat (length text)) _ rb1 Hwf
                ltac:(lia) ltac:(lia)
                Hbyte Htext Hrun1) as Hbyte1.
  rewrite (run_bind_Ret _ _ _ _ _ Hrun1), Insert_Keyword_as_block.
  change (uint32_t SEPARATE_SIGN) with SEPARATE_SIGN.
  change (uint8_t SEPARATE_SIGN_SIZE) with 4.
  pose proof (be_bytes_length SEPARATE_SIGN 4 ltac:(lia)) as Hblen.
  destruct (wp_elim _ _ _ (Write_String_spec rb1 (be_bytes SEPARATE_SIGN 4) 4 Hwf1
                             ltac:(lia) ltac:(lia) ltac:(lia)))
    as (st & rb2 & Hrun2 & -> & Hwf2 & Hc2 & Hl2 & _ & Hm2).
  rewrite take_ge in Hc2 by lia.
  pose proof (Write_String_bytes rb1 (be_bytes SEPARATE_SIGN 4) 4 _ rb2 Hwf1
                ltac:(lia) ltac:(lia) Hbyte1 (be_bytes_is_byte _ _) Hrun2) as Hbyte2.
  exists rb2. split_and!; try done; [lia|].
  rewrite Hc2, Hc1, <- app_assoc. reflexivity.
Qed.

Lemma read_paragraph_run :
  forall rb text rest fuel,
    wf rb -> Forall is_byte (array_addr rb) -> max_length rb + 255 < 2 ^ 32 ->
    contents rb = text ++ be_bytes SEPARATE_SIGN SEPARATE_SIGN_SIZE ++ rest ->
    (forall j, 0 <= j < Z.of_nat (length text) ->
               ~ keyword_stands_at (contents rb) SEPARATE_SIGN SEPARATE_SIGN_SIZE j) ->
    (length text <= 16)%nat -> (length text < fuel)%nat ->
    exists rb',
      run (read_paragraph fuel) rb = Ret (text, rb') /\
      wf rb' /\
      contents rb' = rest /\
      array_addr rb' = array_addr rb.
Proof.
  intros rb text rest fuel Hwf Hbyte Hcap Hocc Hfirst Hshort Hfuel.
  pose proof (contents_length rb Hwf) as Hclen.
  change SEPARATE_SIGN_SIZE with 4 in *.
  pose proof (be_bytes_length SEPARATE_SIGN 4 ltac:(lia)) as Hblen.
  assert (Z.of_nat (length text) + 4 + Z.of_nat (length rest) = lenght rb) as Hlen.
  { rewrite Hocc, !length_app in Hclen. destruct Hwf as (_ & _ & _ & _ & Hl & _). lia. }
  remember (Z.of_nat (length text)) as n eqn:Hn.
  assert (run (Ring_Buffer_Find_Keyword fuel SEPARATE_SIGN 4) rb = Ret (n + 1, rb))
    as Hfind.
  { apply Find_Keyword_first_stand; try done; try lia.
    rewrite Hocc, Hn. apply keyword_stands_after. lia. }
  unfold read_paragraph. rewrite (run_bind_Ret _ _ _ _ _ Hfind).
  replace (n + 1 - 1) with n by lia. small.
  rewrite (run_bind_Ret _ _ _ _ _ (Read_String_run rb n Hwf ltac:(lia))).
  destruct (advanced_handle rb n Hwf ltac:(lia)) as [Hwf1 Hc1].
  set (rb1 := mk_ring_buffer _ _ _ _ _) in *.
  assert (take (Z.to_nat n) (contents rb) = text) as Htake.
  { rewrite Hocc. apply take_app_length'. lia. }
  cbn [snd]. rewrite Htake.
  replace (Z.of_nat (length text) >? 16) with false by lia.
  rewrite (run_bind_Ret _ _ _ tt rb1) by reflexivity.
  rewrite (run_bind_Ret _ _ _ _ _
             (Delete_run rb1 4 Hwf1 ltac:(lia) ltac:(cbn; lia) ltac:(cbn; lia))).
  destruct (advanced_handle rb1 4 Hwf1 ltac:(cbn; lia)) as [Hwf2 Hc2].
  rewrite run_ret. eexists. split; [reflexivity|]. split_and!; try done.
  rewrite Hc2, Hc1, Hocc, drop_drop.
  replace (Z.to_nat n + Z.to_nat 4)%nat
    with (length (text ++ be_bytes SEPARATE_SIGN 4)) by (rewrite length_app; lia).
  rewrite app_assoc. apply drop_app_length.
Qed.



Lemma write_paragraphs_run :
  forall texts rb,
    wf rb -> Forall is_byte (array_addr rb) ->
    Forall (Forall is_byte) texts ->
    lenght rb + Z.of_nat (length (paragraphs_bytes texts)) <= max_length rb ->
    exists rb',
      run (write_paragraphs texts) rb = Ret (tt, rb') /\
      wf rb' /\ Forall is_byte (array_addr rb') /\
      max_length rb' = max_length rb /\
      contents rb' = contents rb ++ paragraphs_bytes texts.
Proof.
  induction texts as [|text texts IH]; intros rb Hwf Hbyte Htexts Hfit.
  - exists rb. split_and!; try done. cbn. by rewrite app_nil_r.
  - apply Forall_cons in Htexts as [Htext Htexts].
    pose proof (contents_length rb Hwf) as Hclen.
    pose proof (be_bytes_length SEPARATE_SIGN 4 ltac:(lia)) as Hblen.
    change SEPARATE_SIGN_SIZE with 4 in *.
    unfold paragraphs_bytes in Hfit. cbn [map concat] in Hfit.
    rewrite !length_app in Hfit. fold (paragraphs_bytes texts) in Hfit.
    change SEPARATE_SIGN_SIZE with 4 in *.
    destruct (write_paragraph_run rb text Hwf Hbyte Htext ltac:(lia))
      as (rb1 & Hrun1 & Hwf1 & Hbyte1 & Hm1 & Hc1).
    pose proof (contents_length rb1 Hwf1) as Hclen1.
    rewrite Hc1, !length_app in Hclen1. change SEPARATE_SIGN_SIZE with 4 in *.
    pose proof Hwf as (_ & _ & _ & _ & Hl & _).
    pose proof Hwf1 as (_ & _ & _ & _ & Hl1 & _).
    destruct (IH rb1 Hwf1 Hbyte1 Htexts ltac:(lia))
      as (rb' & Hrun & Hwf' & Hbyte' & Hm' & Hc').
    exists rb'. cbn [write_paragraphs]. rewrite (run_bind_Ret _ _ _ _ _ Hrun1).
    split_and!; try done; [lia|].
    rewrite Hc', Hc1. unfold paragraphs_bytes. cbn [map concat].
    by rewrite <- !app_assoc.
Qed.

Lemma separator_not_inside text rest j :
  ~ In 0xCC text -> 0 <= j < Z.of_nat (length text) ->
  ~ keyword_stands_at (text ++ be_bytes SEPARATE_SIGN SEPARATE_SIGN_SIZE ++ rest)
      SEPARATE_SIGN SEPARATE_SIGN_SIZE j.
Proof.
  intros Hfree Hj Hstands. apply Hfree.
  unfold keyword_stands_at in Hstands.
  apply (f_equal (fun l => l !! 0%nat)) in Hstands.
  change (be_bytes SEPARATE_SIGN SEPARATE_SIGN_SIZE !! 0%nat) with (Some 204)
    in Hstands.
  change (Z.to_nat SEPARATE_SIGN_SIZE) with 4%nat in Hstands.
  rewrite lookup_take_lt, lookup_drop, lookup_app_l in Hstands by lia.
  apply list_elem_of_In. by apply list_elem_of_lookup_2 in Hstands.
Qed.

Lemma read_paragraphs_run :
  forall texts rb rest fuel,
    wf rb -> Forall is_byte (array_addr rb) -> max_length rb + 255 < 2 ^ 32 ->
    contents rb = paragraphs_bytes texts ++ rest ->
    Forall (fun text => ~ In 0xCC text /\ (length text <= 16)%nat) texts ->
    (16 < fuel)%nat ->
    exists rb',
      run (read_paragraphs fuel (length texts)) rb = Ret (texts, rb') /\
      wf rb' /\ contents rb' = rest.
Proof.
  induction texts as [|text texts IH]; intros rb rest fuel Hwf Hbyte Hcap Hc Htexts Hfuel.
  - exists rb. split_and!; done.
  - apply Forall_cons in Htexts as [[Hfree Hshort] Htexts].
    unfold paragraphs_bytes in Hc. cbn [map concat] in Hc.
    fold (paragraphs_bytes texts) in Hc. rewrite <- !app_assoc in Hc.
    destruct (read_paragraph_run rb text (paragraphs_bytes texts ++ rest) fuel
                Hwf Hbyte Hcap Hc) as (rb1 & Hrun1 & Hwf1 & Hc1 & Ha1); [|lia|lia|].
    { intros j Hj. rewrite Hc. by apply separator_not_inside. }
    assert (max_length rb1 = max_length rb) as Hm1.
    { destruct Hwf as (Hsz & _), Hwf1 as (Hsz1 & _). by rewrite Hsz, Hsz1, Ha1. }
    destruct (IH rb1 rest fuel Hwf1 ltac:(by rewrite Ha1) ltac:(lia) Hc1 Htexts Hfuel)
      as (rb' & Hrun & Hwf' & Hc').
    exists rb'. cbn [read_paragraphs length].
    rewrite (run_bind_Ret _ _ _ _ _ Hrun1), (run_bind_Ret _ _ _ _ _ Hrun), run_ret.
    split_and!; done.
Qed.

(** X16: the protocol of the test program. Starting from an empty
    well-formed ring of bytes, writing any list of paragraphs, each
    followed by the separator, and then running the consumer loop once
    per paragraph gives back exactly the paragraphs, in order, and
    leaves the ring empty; provided the paragraphs are bytes, none
    contains the separator's first byte [0xCC] or is longer than the 16
    bytes of [get], and paragraphs and separators all fit in the ring. *)
Theorem paragraphs_round_trip :
  forall texts rb fuel,
    wf rb -> Forall is_byte (array_addr rb) -> lenght rb = 0 ->
    max_length rb + 255 < 2 ^ 32 ->
    Forall (fun text => Forall is_byte text /\ ~ In 0xCC text /\
                        (length text <= 16)%nat) texts ->
    Z.of_nat (length (paragraphs_bytes texts)) <= max_length rb ->
    (16 < fuel)%nat ->
    exists rb',
      run (write_paragraphs texts ;; read_paragraphs fuel (length texts)) rb
        = Ret (texts, rb') /\
      wf rb' /\
      contents rb' = [].
Proof.
  intros texts rb fuel Hwf Hbyte Hempty Hcap Htexts Hfit Hfuel.
  destruct (write_paragraphs_run texts rb Hwf Hbyte) as (rb1 & Hrun1 & Hwf1 & Hbyte1 & Hm1 & Hc1).
  { eapply Forall_impl; [exact Htexts | by intros text (? & _)]. }
  { lia. }
  rewrite (contents_empty rb Hwf Hempty), app_nil_l in Hc1.
  destruct (read_paragraphs_run texts rb1 [] fuel Hwf1 Hbyte1 ltac:(lia))
    as (rb' & Hrun & Hwf' & Hc'); try done.
  { by rewrite app_nil_r. }
  { eapply Forall_impl; [exact Htexts | by intros text (_ & ? & ?)]. }
  exists rb'. rewrite (run_bind_Ret _ _ _ _ _ Hrun1). split_and!; done.
Qed.

Lemma paragraphs_round_trip_witness :
  wf test_start /\ Forall is_byte (array_addr test_start) /\
  lenght test_start = 0 /\ max_length test_start + 255 < 2 ^ 32 /\
  Z.of_nat (length (paragraphs_bytes test_paragraphs)) <= max_length test_start /\
  exists rb',
    run (write_paragraphs test_paragraphs ;;
         read_paragraphs 17 (length test_paragraphs)) test_start
      = Ret (test_paragraphs, rb') /\
    wf rb' /\
    contents rb' = [].
Proof.
  assert (wf test_start) as Hwf by solve_wf_concrete test_start 0 0 0 256.
  assert (Forall is_byte (array_addr test_start)) as Hbyte.
  { change (array_addr test_start) with (replicate 256 0).
    apply Forall_replicate. unfold is_byte. lia. }
  assert (lenght test_start = 0) as Hempty by reflexivity.
  assert (max_length test_start + 255 < 2 ^ 32) as Hcap
    by (change (max_length test_start) with 256; lia).
  assert (Z.of_nat (length (paragraphs_bytes test_paragraphs))
          <= max_length test_start) as Hfit.
  { change (Z.of_nat (length (paragraphs_bytes test_paragraphs))) with 40.
    change (max_length test_start) with 256. lia. }
  split; [exact Hwf|]. split; [exact Hbyte|]. split; [exact Hempty|].
  split; [exact Hcap|]. split; [exact Hfit|].
  apply (paragraphs_round_trip test_paragraphs test_start 17 Hwf Hbyte Hempty Hcap);
    [|exact Hfit|lia].
  unfold test_paragraphs, str_ABCDEFGHIJK, str_abcdefg. cbn [take firstn].
  repeat (apply Forall_cons; split); try (apply Forall_nil; exact I).
  all: split_and!;
    [ repeat (apply Forall_cons; split); try (apply Forall_nil; exact I);
      unfold is_byte; lia
    | cbn; intros H; repeat (destruct H as [H|H]; [discriminate H|]); exact H
    | cbn; lia ].
Defined.

(** X17: the space test of a block write wraps. With a capacity of at
    most [2 ^ 30], a write length that takes [lenght + write_lenght] to
    [2 ^ 32] or beyond is not refused: the 32-bit sum passes the test,
    and the copy then runs off the end of the source or of the ring's
    array. *)
Theorem write_string_space_test_wraps :
  forall rb input n,
    wf rb -> max_length rb <= 2 ^ 30 ->
    0 <= n < 2 ^ 32 -> 2 ^ 32 <= lenght rb + n ->
    run (Ring_Buffer_Write_String input n) rb = Undefined.
Proof.
  intros rb input n (Hsz & Hmax & Hh & Ht & Hl & Hth) Hcap Hn Hsum.
  destruct rb as [h t l a m]; cbn in *.
  unfold run, Ring_Buffer_Write_String. cbn. small.
  replace (uint32_t (l + n)) with (l + n - 2 ^ 32)
    by (unfold uint32_t; symmetry; apply mod_wrap; lia).
  replace (l + n - 2 ^ 32 >? m) with false by lia. cbn. small.
  replace (m - t <? n) with true by lia. cbn. small.
  replace (n - (m - t) =? 0) with false by lia. cbn.
  unfold bind, memcpy_to_array. cbn.
  replace (0 <=? t) with true by lia.
  replace (0 <=? m - t) with true by lia.
  replace (t + (m - t) <=? Z.of_nat (length a)) with true by lia. cbn.
  destruct (m - t <=? Z.of_nat (length input)); [|reflexivity]. cbn.
  replace (0 <=? n - (m - t)) with true by lia.
  rewrite length_inserts.
  replace (0 + (n - (m - t)) <=? Z.of_nat (length a)) with false by lia.
  reflexivity.
Qed.

Lemma write_string_space_test_wraps_witness :
  wf one_of_four /\ max_length one_of_four <= 2 ^ 30 /\
  0 <= 2 ^ 32 - 1 < 2 ^ 32 /\ 2 ^ 32 <= lenght one_of_four + (2 ^ 32 - 1) /\
  run (Ring_Buffer_Write_String [5; 6; 7; 8] (2 ^ 32 - 1)) one_of_four = Undefined.
Proof.
  assert (wf one_of_four) as Hwf by solve_wf_concrete one_of_four 0 1 1 4.
  assert (max_length one_of_four <= 2 ^ 30) as Hcap
    by (change (max_length one_of_four) with 4; lia).
  assert (2 ^ 32 <= lenght one_of_four + (2 ^ 32 - 1)) as Hsum
    by (change (lenght one_of_four) with 1; lia).
  split; [exact Hwf|]. split; [exact Hcap|]. split; [lia|]. split; [exact Hsum|].
  exact (write_string_space_test_wraps one_of_four [5; 6; 7; 8] (2 ^ 32 - 1)
           Hwf Hcap ltac:(lia) Hsum).
Defined.
